(** * The question prefetch cache of [app.py]

    A shallow embedding of the cache core of the PSeInt quiz application:
    the bounded queue [pregunta_cache], the background thread
    [precargar_preguntas], the decoder [generar_pregunta] and the consumer
    entry point [obtener_pregunta_cache].

    Python values are a small inductive type, the standard [queue.Queue] is a
    record with its [maxsize] and its FIFO contents, and the threads of the
    program are an interleaving transition system whose atomic steps are the
    operations the queue performs under its internal mutex. *)

From Stdlib Require Import List String Ascii Bool Arith ZArith Lia.
Import ListNotations.
Local Open Scope string_scope.
Local Open Scope list_scope.
Set Warnings "-register-all".

(** ** Python strings *)

Module PyStr.

(** Characters stand for the code points 0..255.  [str.isspace] is true there
    on TAB..CR, FS..US, the space, NEL and the no-break space. *)
Definition isspace (c : ascii) : bool :=
  let n := nat_of_ascii c in
  (((9 <=? n) && (n <=? 13)) || ((28 <=? n) && (n <=? 32))
   || (n =? 133) || (n =? 160))%nat.

Fixpoint all_space (s : string) : bool :=
  match s with
  | EmptyString => true
  | String c s' => isspace c && all_space s'
  end.

Fixpoint lstrip (s : string) : string :=
  match s with
  | EmptyString => EmptyString
  | String c s' => if isspace c then lstrip s' else s
  end.

Fixpoint rstrip (s : string) : string :=
  match s with
  | EmptyString => EmptyString
  | String c s' => if all_space s then EmptyString else String c (rstrip s')
  end.

(** [s.strip()] *)
Definition strip (s : string) : string := rstrip (lstrip s).

(** [s.split(",")]: never empty, one more piece than there are commas. *)
Fixpoint split_comma (s : string) : list string :=
  match s with
  | EmptyString => [EmptyString]
  | String c s' =>
      if Ascii.eqb c ","%char then EmptyString :: split_comma s'
      else match split_comma s' with
           | [] => [String c EmptyString]
           | p :: ps => String c p :: ps
           end
  end.

(** [",".join(l)] *)
Fixpoint join_comma (l : list string) : string :=
  match l with
  | [] => EmptyString
  | [p] => p
  | p :: ps => (p ++ "," ++ join_comma ps)%string
  end.

Fixpoint contains (c : ascii) (s : string) : bool :=
  match s with
  | EmptyString => false
  | String d s' => Ascii.eqb c d || contains c s'
  end.

Definition first_char (s : string) : option ascii :=
  match s with EmptyString => None | String c _ => Some c end.

Fixpoint last_char (s : string) : option ascii :=
  match s with
  | EmptyString => None
  | String c EmptyString => Some c
  | String _ s' => last_char s'
  end.

Definition startswith (s p : string) : bool := String.prefix p s.

(** [s[n:]] *)
Definition drop (n : nat) (s : string) : string :=
  String.substring n (String.length s - n) s.

Definition endswith (s p : string) : bool :=
  (String.length p <=? String.length s)%nat
  && String.eqb (drop (String.length s - String.length p) s) p.

(** [s[:-n]] for [0 < n] *)
Definition drop_end (n : nat) (s : string) : string :=
  String.substring 0 (String.length s - n) s.

End PyStr.

(** ** Python values (what [json.loads] yields, and the dictionaries built
       from it) *)

Inductive pyval : Type :=
| PNone
| PBool (b : bool)
| PInt (z : Z)
| PFloat (lit : string)
| PStr (s : string)
| PList (l : list pyval)
| PDict (kv : list (string * pyval)).

(** A dictionary is kept as its key/value pairs; a key is looked up at its
    first pair (keys of a Python dict are unique). *)
Fixpoint dict_lookup (kv : list (string * pyval)) (k : string) : option pyval :=
  match kv with
  | [] => None
  | (k', v) :: rest => if String.eqb k k' then Some v else dict_lookup rest k
  end.

(** [d.get(k)] and [d.get(k, default)] *)
Definition dict_get (kv : list (string * pyval)) (k : string) : pyval :=
  match dict_lookup kv k with Some v => v | None => PNone end.

Definition dict_get_default (kv : list (string * pyval)) (k : string)
    (d : pyval) : pyval :=
  match dict_lookup kv k with Some v => v | None => d end.

(** [k in d] *)
Definition dict_has (kv : list (string * pyval)) (k : string) : bool :=
  match dict_lookup kv k with Some _ => true | None => false end.

Definition type_name (v : pyval) : string :=
  match v with
  | PNone => "NoneType"
  | PBool _ => "bool"
  | PInt _ => "int"
  | PFloat _ => "float"
  | PStr _ => "str"
  | PList _ => "list"
  | PDict _ => "dict"
  end.

(** The outcome of a call: a returned value or a raised exception (its
    message). *)
Inductive outcome (A : Type) : Type :=
| Ret (a : A)
| Raise (e : string).
Arguments Ret {A} a.
Arguments Raise {A} e.

(** What [client.models.generate_content] does: it raises (transport or
    remote failure) or answers with a response whose [.text] is given. *)
Inductive api_result : Type :=
| ApiRaise (e : string)
| ApiResponse (text : string).

(** ** Configuration *)

Definition CACHE_SIZE : Z := 40.
Definition CACHE_MIN : nat := 10.
Definition GET_TIMEOUT : nat := 10.
Definition SLEEP_SECS : nat := 2.

(** ** [generar_pregunta] *)

Section Generar.

(** [json.loads]: the decoded value, or the message of the exception. *)
Variable json_loads : string -> pyval + string.

(** Lines 100-107: strip, then peel the Markdown fences. *)
Definition limpiar (text : string) : string :=
  let t0 := PyStr.strip text in
  let t1 := if PyStr.startswith t0 "```json" then PyStr.drop 7 t0 else t0 in
  let t2 := if PyStr.startswith t1 "```" then PyStr.drop 3 t1 else t1 in
  if PyStr.endswith t2 "```" then PyStr.drop_end 3 t2 else t2.

(** Lines 110-114. *)
Definition normalizar_respuestas (respuestas : pyval) : pyval :=
  match respuestas with
  | PStr s => PList (map (fun r => PStr (PyStr.strip r)) (PyStr.split_comma s))
  | PList l => PList l
  | _ => PList []
  end.

(** Line 125. *)
Definition error_dict (detalle text : string) : pyval :=
  PDict [("error", PStr "No se pudo extraer el JSON");
         ("detalle", PStr detalle);
         ("texto", PStr text)].

(** Lines 115-121. *)
Definition armar_pregunta (pregunta_json : list (string * pyval)) : pyval :=
  PDict [("pregunta", dict_get pregunta_json "Pregunta");
         ("codigo", dict_get pregunta_json "Codigo");
         ("respuestas",
           normalizar_respuestas (dict_get pregunta_json "Respuestas"));
         ("respuesta_correcta", dict_get pregunta_json "Respuesta correcta");
         ("explicacion",
           dict_get_default pregunta_json "Explicacion" (PStr ""))].

(** The [try] block of lines 99-125 on a response text: a decoding error and
    a decoded value without [.get] both end in the [except] clause. *)
Definition decodificar (text : string) : pyval :=
  match json_loads (limpiar text) with
  | inr e => error_dict e text
  | inl (PDict pregunta_json) => armar_pregunta pregunta_json
  | inl v =>
      error_dict
        ("'" ++ type_name v ++ "' object has no attribute 'get'")%string text
  end.

(** The API call of line 95 is outside the [try]: its exception leaves
    [generar_pregunta]. *)
Definition generar_pregunta (r : api_result) : outcome pyval :=
  match r with
  | ApiRaise e => Raise e
  | ApiResponse text => Ret (decodificar text)
  end.

(** Line 77: the test the worker applies before caching. *)
Definition es_valida (pregunta : pyval) : bool :=
  match pregunta with
  | PDict kv => dict_has kv "pregunta" && dict_has kv "codigo"
  | _ => false
  end.

End Generar.

(** ** [queue.Queue] *)

Module Queue.

(** [queue.Queue(maxsize)]: the bound and the items, oldest first. *)
Record t : Type := { maxsize : Z; items : list pyval }.

Definition new (m : Z) : t := {| maxsize := m; items := [] |}.

Definition qsize (q : t) : nat := List.length (items q).

(** A queue is bounded when [maxsize > 0]; it is full from [maxsize] on. *)
Definition full (q : t) : bool :=
  ((0 <? maxsize q) && (maxsize q <=? Z.of_nat (qsize q)))%Z.

(** [q.put(item)], with the default [block=True, timeout=None]: appends
    when the queue is not full and waits otherwise.  [None] is the waiting
    caller: the call has not returned. *)
Definition put (q : t) (x : pyval) : option t :=
  if full q then None
  else Some {| maxsize := maxsize q; items := items q ++ [x] |}.

(** The removal [get] performs once the queue is not empty. *)
Definition take (q : t) : option (pyval * t) :=
  match items q with
  | [] => None
  | x :: rest => Some (x, {| maxsize := maxsize q; items := rest |})
  end.

(** The operations of the threads, each atomic under the queue's mutex.
    An operation that has to wait leaves the queue as it is. *)
Inductive op : Type :=
| Put (thread : nat) (x : pyval)
| Get (thread : nat).

Definition apply (o : op) (q : t) : t :=
  match o with
  | Put _ x => match put q x with Some q' => q' | None => q end
  | Get _ => match take q with Some (_, q') => q' | None => q end
  end.

(** The queue after each operation of a schedule. *)
Fixpoint history (ops : list op) (q : t) : list t :=
  match ops with
  | [] => []
  | o :: ops' => apply o q :: history ops' (apply o q)
  end.

Definition bounded (q : t) : Prop :=
  (0 <= Z.of_nat (qsize q) <= maxsize q)%Z.

End Queue.

(** ** The threads *)

(** Where the background thread [precargar_preguntas] stands. *)
Inductive worker_pc : Type :=
| WLoop                      (* line 73, about to read [qsize()] *)
| WGenerar (visto : nat)     (* line 75, having read [visto < CACHE_MIN] *)
| WPut (pregunta : pyval)    (* line 78, about to [put] a valid question *)
| WSleep (hasta : nat).      (* line 82, inside [time.sleep(2)] *)

(** Where a call of [obtener_pregunta_cache] stands. *)
Inductive call_pc : Type :=
| CIdle                            (* not entered yet *)
| CWait (inicio : nat)             (* line 133, waiting inside [get] *)
| CExcept (inicio : nat)           (* line 135, [queue.Empty] caught *)
| CDone (inicio fin : nat) (r : outcome pyval).  (* left, at time [fin] *)

Record system : Type := {
  pregunta_cache : Queue.t;
  reloj : nat;                      (* seconds *)
  hilo : worker_pc;
  llamadas : nat -> call_pc;        (* one entry per call *)
  generaciones : nat;               (* calls of [generar_pregunta] so far *)
  entregas : list (nat * pyval);    (* items handed out by [get], and to whom *)
  encoladas : list pyval            (* items [put] so far *)
}.

Definition set_hilo (w : worker_pc) (s : system) : system :=
  {| pregunta_cache := pregunta_cache s; reloj := reloj s; hilo := w;
     llamadas := llamadas s; generaciones := generaciones s;
     entregas := entregas s; encoladas := encoladas s |}.

Definition set_llamada (c : nat) (pc : call_pc) (s : system) : system :=
  {| pregunta_cache := pregunta_cache s; reloj := reloj s; hilo := hilo s;
     llamadas := fun c' => if Nat.eqb c' c then pc else llamadas s c';
     generaciones := generaciones s;
     entregas := entregas s; encoladas := encoladas s |}.

Definition count_generacion (s : system) : system :=
  {| pregunta_cache := pregunta_cache s; reloj := reloj s; hilo := hilo s;
     llamadas := llamadas s; generaciones := S (generaciones s);
     entregas := entregas s; encoladas := encoladas s |}.

Definition enqueued (q : Queue.t) (x : pyval) (s : system) : system :=
  {| pregunta_cache := q; reloj := reloj s; hilo := hilo s;
     llamadas := llamadas s; generaciones := generaciones s;
     entregas := entregas s; encoladas := encoladas s ++ [x] |}.

Definition delivered (q : Queue.t) (c : nat) (x : pyval) (s : system) : system :=
  {| pregunta_cache := q; reloj := reloj s; hilo := hilo s;
     llamadas := llamadas s; generaciones := generaciones s;
     entregas := entregas s ++ [(c, x)]; encoladas := encoladas s |}.

Definition tick (s : system) : system :=
  {| pregunta_cache := pregunta_cache s; reloj := S (reloj s); hilo := hilo s;
     llamadas := llamadas s; generaciones := generaciones s;
     entregas := entregas s; encoladas := encoladas s |}.

(** The atomic steps.  The outcome of the remote API is part of the label of
    a generating step. *)
Inductive label : Type :=
| WCheck                            (* worker: [qsize() < CACHE_MIN] *)
| WGenerate (r : api_result)        (* worker: lines 75-77 *)
| WEnqueue                          (* worker: line 78 *)
| WWake                             (* worker: [time.sleep(2)] returns *)
| CCall (c : nat)                   (* call [c] enters [get(timeout=10)] *)
| CTake (c : nat)                   (* a waiting [get] finds an item *)
| CTimeout (c : nat)                (* a waiting [get] raises [Empty] *)
| CFallback (c : nat) (r : api_result)   (* line 135 *)
| Tick.                             (* one second passes *)

Section Sistema.

Variable json_loads : string -> pyval + string.

(** After [generar_pregunta] returned or raised in the worker:
    lines 77-80. *)
Definition tras_generar (o : outcome pyval) : worker_pc :=
  match o with
  | Ret pregunta => if es_valida pregunta then WPut pregunta else WLoop
  | Raise _ => WLoop
  end.

Definition step (l : label) (s : system) : option system :=
  match l with
  | WCheck =>
      match hilo s with
      | WLoop =>
          let n := Queue.qsize (pregunta_cache s) in
          if (n <? CACHE_MIN)%nat then Some (set_hilo (WGenerar n) s)
          else Some (set_hilo (WSleep (reloj s + SLEEP_SECS)) s)
      | _ => None
      end
  | WGenerate r =>
      match hilo s with
      | WGenerar _ =>
          Some (set_hilo (tras_generar (generar_pregunta json_loads r))
                  (count_generacion s))
      | _ => None
      end
  | WEnqueue =>
      match hilo s with
      | WPut pregunta =>
          match Queue.put (pregunta_cache s) pregunta with
          | Some q => Some (set_hilo WLoop (enqueued q pregunta s))
          | None => None
          end
      | _ => None
      end
  | WWake =>
      match hilo s with
      | WSleep hasta =>
          if (hasta <=? reloj s)%nat then Some (set_hilo WLoop s) else None
      | _ => None
      end
  | CCall c =>
      match llamadas s c with
      | CIdle =>
          match Queue.take (pregunta_cache s) with
          | Some (x, q) =>
              Some (set_llamada c (CDone (reloj s) (reloj s) (Ret x))
                      (delivered q c x s))
          | None => Some (set_llamada c (CWait (reloj s)) s)
          end
      | _ => None
      end
  | CTake c =>
      match llamadas s c with
      | CWait inicio =>
          match Queue.take (pregunta_cache s) with
          | Some (x, q) =>
              Some (set_llamada c (CDone inicio (reloj s) (Ret x))
                      (delivered q c x s))
          | None => None
          end
      | _ => None
      end
  | CTimeout c =>
      match llamadas s c with
      | CWait inicio =>
          match Queue.take (pregunta_cache s) with
          | None =>
              if (inicio + GET_TIMEOUT <=? reloj s)%nat
              then Some (set_llamada c (CExcept inicio) s)
              else None
          | Some _ => None
          end
      | _ => None
      end
  | CFallback c r =>
      match llamadas s c with
      | CExcept inicio =>
          Some (set_llamada c
                  (CDone inicio (reloj s) (generar_pregunta json_loads r))
                  (count_generacion s))
      | _ => None
      end
  | Tick => Some (tick s)
  end.

(** A schedule, run from a state; [None] when one of its steps is not
    enabled. *)
Fixpoint run (ls : list label) (s : system) : option system :=
  match ls with
  | [] => Some s
  | l :: ls' =>
      match step l s with
      | Some s' => run ls' s'
      | None => None
      end
  end.

End Sistema.

(** The program at start-up: an empty [Queue(maxsize=CACHE_SIZE)], the
    worker at the head of its loop, no call entered. *)
Definition arranque : system :=
  {| pregunta_cache := Queue.new CACHE_SIZE; reloj := 0; hilo := WLoop;
     llamadas := fun _ => CIdle; generaciones := 0;
     entregas := []; encoladas := [] |}.

(** ** The validator as the specification words it *)

Definition nonempty_str (v : pyval) : bool :=
  match v with
  | PStr EmptyString => false
  | PStr _ => true
  | _ => false
  end.

Definition is_str (s : string) (v : pyval) : bool :=
  match v with PStr s' => String.eqb s' s | _ => false end.

(** A decoded item is structurally complete: non-empty question, non-empty
    code, non-empty answer set, and the correct answer verbatim among the
    answer options. *)
Definition spec_completa (item : pyval) : bool :=
  match item with
  | PDict kv =>
      nonempty_str (dict_get kv "pregunta")
      && nonempty_str (dict_get kv "codigo")
      && match dict_get kv "respuestas", dict_get kv "respuesta_correcta" with
         | PList (a :: l), PStr correcta => existsb (is_str correcta) (a :: l)
         | _, _ => false
         end
  | _ => false
  end.

(** [IsValid(raw)] of the specification: the raw result decodes into a
    structurally complete item. *)
Definition spec_IsValid (json_loads : string -> pyval + string)
    (raw : api_result) : bool :=
  match generar_pregunta json_loads raw with
  | Ret item => spec_completa item
  | Raise _ => false
  end.

(** A decoder known on the listed texts only; any other text is refused. *)
Fixpoint loads_tabla (tabla : list (string * pyval)) (text : string)
    : pyval + string :=
  match tabla with
  | [] => inr "Expecting value: line 1 column 1 (char 0)"
  | (t, v) :: rest =>
      if String.eqb text t then inl v else loads_tabla rest text
  end.

(** ** Observing a run *)

(** Which steps belong to the worker, and which to call [c]. *)
Definition is_worker (l : label) : bool :=
  match l with
  | WCheck | WGenerate _ | WEnqueue | WWake => true
  | _ => false
  end.

Definition of_call (c : nat) (l : label) : bool :=
  match l with
  | CCall c' | CTake c' | CTimeout c' | CFallback c' _ => Nat.eqb c c'
  | _ => false
  end.

Definition call_trace (c : nat) (ls : list label) : list label :=
  filter (of_call c) ls.

(** The calls entered along a schedule, in order. *)
Fixpoint called (ls : list label) : list nat :=
  match ls with
  | [] => []
  | CCall c :: ls' => c :: called ls'
  | _ :: ls' => called ls'
  end.

(** A step in which a call does not wait: neither a wake-up of a waiting
    [get], nor a timeout, nor a fallback generation. *)
Definition immediate (l : label) : bool :=
  match l with
  | CTake _ | CTimeout _ | CFallback _ _ => false
  | _ => true
  end.

(** The schedule of a call that meets an empty cache and waits alone. *)
Definition espera_y_fallback (c : nat) (o : api_result) : list label :=
  [CCall c] ++ repeat Tick GET_TIMEOUT ++ [CTimeout c; CFallback c o].

(** What a step may do to the queue: nothing, one [put] by the worker, or
    one removal by a call. *)
Inductive cache_effect (l : label) (s s' : system) : Prop :=
| Untouched :
    pregunta_cache s' = pregunta_cache s ->
    entregas s' = entregas s -> encoladas s' = encoladas s ->
    cache_effect l s s'
| Enqueued (p : pyval) :
    l = WEnqueue -> hilo s = WPut p -> hilo s' = WLoop ->
    Queue.put (pregunta_cache s) p = Some (pregunta_cache s') ->
    entregas s' = entregas s -> encoladas s' = encoladas s ++ [p] ->
    cache_effect l s s'
| Delivered (c : nat) (x : pyval) (t0 : nat) :
    (l = CCall c /\ llamadas s c = CIdle /\ t0 = reloj s
     \/ l = CTake c /\ llamadas s c = CWait t0) ->
    llamadas s' c = CDone t0 (reloj s) (Ret x) ->
    hilo s' = hilo s ->
    Queue.take (pregunta_cache s) = Some (x, pregunta_cache s') ->
    entregas s' = entregas s ++ [(c, x)] -> encoladas s' = encoladas s ->
    cache_effect l s s'.

(** ** Invariants *)

(** The worker holds a size it read below the watermark, and nobody else
    enqueues: the queue has not grown since. *)
Definition worker_ok (s : system) : Prop :=
  match hilo s with
  | WGenerar n => n < CACHE_MIN /\ Queue.qsize (pregunta_cache s) <= n
  | WPut p => Queue.qsize (pregunta_cache s) < CACHE_MIN /\ es_valida p = true
  | _ => True
  end.

Definition cache_ok (s : system) : Prop :=
  Queue.maxsize (pregunta_cache s) = CACHE_SIZE
  /\ Queue.bounded (pregunta_cache s).

Definition is_done (pc : call_pc) : Prop :=
  match pc with CDone _ _ _ => True | _ => False end.

(** A call that received an item has left with that item, and received one
    item only. *)
Definition entregas_ok (s : system) : Prop :=
  NoDup (map fst (entregas s))
  /\ forall c x, In (c, x) (entregas s) ->
                 exists t0 t1, llamadas s c = CDone t0 t1 (Ret x).

(** Where call [c] stands determines the steps it has taken since it was
    idle ([tr]), and the times it recorded; [desde] is a time at which it
    was still idle. *)
Definition call_ok (json_loads : string -> pyval + string)
    (c desde : nat) (tr : list label) (s : system) : Prop :=
  match llamadas s c with
  | CIdle => tr = []
  | CWait t0 => tr = [CCall c] /\ desde <= t0
  | CExcept t0 =>
      tr = [CCall c; CTimeout c] /\ desde <= t0
      /\ t0 + GET_TIMEOUT <= reloj s
  | CDone t0 t1 r =>
      desde <= t0 /\ t1 <= reloj s
      /\ ((exists x, r = Ret x /\ In (c, x) (entregas s)
                     /\ (tr = [CCall c] /\ t1 = t0 \/ tr = [CCall c; CTake c]))
          \/ (exists o, r = generar_pregunta json_loads o
                        /\ tr = [CCall c; CTimeout c; CFallback c o]
                        /\ t0 + GET_TIMEOUT <= t1))
  end.

(** With no more calls than seeded items, the k-th call takes the k-th
    item on entering, and no call is ever found waiting. *)
Definition seeded_ok (q0 : list pyval) (ls : list label) (s : system) : Prop :=
  entregas s = combine (called ls) q0
  /\ Queue.items (pregunta_cache s)
     = skipn (List.length (called ls)) q0 ++ encoladas s
  /\ (forall c, In c (called ls) ->
                exists t x, llamadas s c = CDone t t (Ret x))
  /\ (forall c, ~ In c (called ls) -> llamadas s c = CIdle)
  /\ forallb immediate ls = true.

(** ** The validity test, from the raw result *)


(** ** Concrete states and responses *)

(** A state whose cache holds [q], observed from now on. *)
Definition sembrado (q : list pyval) : system :=
  {| pregunta_cache := {| Queue.maxsize := CACHE_SIZE; Queue.items := q |};
     reloj := 0; hilo := WLoop; llamadas := fun _ => CIdle;
     generaciones := 0; entregas := []; encoladas := [] |}.

Definition cache_llena : Queue.t :=
  {| Queue.maxsize := CACHE_SIZE; Queue.items := repeat PNone 40 |}.

(** The worker about to [put] into a full queue. *)
Definition ante_cache_llena : system :=
  {| pregunta_cache := cache_llena; reloj := 0;
     hilo := WPut (PDict [("pregunta", PNone); ("codigo", PNone)]);
     llamadas := fun _ => CIdle; generaciones := 0;
     entregas := []; encoladas := [] |}.

Definition comilla : string := String (ascii_of_nat 34) EmptyString.

(** A JSON string literal. *)
Definition lit (s : string) : string := (comilla ++ s ++ comilla)%string.

(** A response with every field, fenced as Markdown. *)
Definition texto_completo : string :=
  ("```json{" ++ lit "Pregunta" ++ ": " ++ lit "Que salida tiene?" ++ ", "
   ++ lit "Codigo" ++ ": " ++ lit "Escribir 1+1" ++ ", "
   ++ lit "Respuestas" ++ ": [" ++ lit "2" ++ ", " ++ lit "11" ++ "], "
   ++ lit "Respuesta correcta" ++ ": " ++ lit "2" ++ ", "
   ++ lit "Explicacion" ++ ": " ++ lit "Suma" ++ "}```")%string.

Definition json_completo : pyval :=
  PDict [("Pregunta", PStr "Que salida tiene?");
         ("Codigo", PStr "Escribir 1+1");
         ("Respuestas", PList [PStr "2"; PStr "11"]);
         ("Respuesta correcta", PStr "2");
         ("Explicacion", PStr "Suma")].

(** A response without the correct-answer field. *)
Definition texto_sin_correcta : string :=
  ("{" ++ lit "Pregunta" ++ ": " ++ lit "Que salida tiene?" ++ ", "
   ++ lit "Codigo" ++ ": " ++ lit "Escribir 1+1" ++ ", "
   ++ lit "Respuestas" ++ ": [" ++ lit "2" ++ ", " ++ lit "11" ++ "]}")%string.

Definition json_sin_correcta : pyval :=
  PDict [("Pregunta", PStr "Que salida tiene?");
         ("Codigo", PStr "Escribir 1+1");
         ("Respuestas", PList [PStr "2"; PStr "11"])].

(** A response whose answers are one comma-separated string. *)
Definition texto_respuestas_str : string :=
  ("{" ++ lit "Pregunta" ++ ": " ++ lit "Que salida tiene?" ++ ", "
   ++ lit "Codigo" ++ ": " ++ lit "Escribir 1+1" ++ ", "
   ++ lit "Respuestas" ++ ": " ++ lit "2, 11 ,3" ++ ", "
   ++ lit "Respuesta correcta" ++ ": " ++ lit "2" ++ "}")%string.

Definition json_respuestas_str : pyval :=
  PDict [("Pregunta", PStr "Que salida tiene?");
         ("Codigo", PStr "Escribir 1+1");
         ("Respuestas", PStr "2, 11 ,3");
         ("Respuesta correcta", PStr "2")].

(** A response whose answers are a number. *)
Definition texto_respuestas_num : string :=
  ("{" ++ lit "Pregunta" ++ ": " ++ lit "Que salida tiene?" ++ ", "
   ++ lit "Codigo" ++ ": " ++ lit "Escribir 1+1" ++ ", "
   ++ lit "Respuestas" ++ ": 4}")%string.

Definition json_respuestas_num : pyval :=
  PDict [("Pregunta", PStr "Que salida tiene?");
         ("Codigo", PStr "Escribir 1+1");
         ("Respuestas", PInt 4)].

(** [json.loads] on the cleaned texts above; a list is decoded for the
    text [[1]], and anything else is refused. *)
Definition loads_ejemplos : string -> pyval + string :=
  loads_tabla
    [(limpiar texto_completo, json_completo);
     (texto_sin_correcta, json_sin_correcta);
     (texto_respuestas_str, json_respuestas_str);
     (texto_respuestas_num, json_respuestas_num);
     ("[1]", PList [PInt 1])].

Definition item_sin_correcta : pyval :=
  PDict [("pregunta", PStr "Que salida tiene?");
         ("codigo", PStr "Escribir 1+1");
         ("respuestas", PList [PStr "2"; PStr "11"]);
         ("respuesta_correcta", PNone);
         ("explicacion", PStr "")].

(** ** More invariants of the running system *)

(** A question dictionary, as line 115 builds it. *)
Definition es_pregunta (p : pyval) : Prop :=
  exists pregunta_json, p = armar_pregunta pregunta_json.

(** Whatever is queued, about to be queued or handed out is a question
    dictionary. *)
Definition solo_preguntas (s : system) : Prop :=
  Forall es_pregunta (Queue.items (pregunta_cache s))
  /\ (forall p, hilo s = WPut p -> es_pregunta p)
  /\ (forall c x, In (c, x) (entregas s) -> es_pregunta x).

(** The queue is at most at the watermark, and below it while the worker is
    on its way to [put]. *)
Definition bajo_umbral (s : system) : Prop :=
  Queue.qsize (pregunta_cache s) <= CACHE_MIN /\ worker_ok s.

(** A sleeping worker wakes within [SLEEP_SECS]. *)
Definition sleep_ok (s : system) : Prop :=
  match hilo s with
  | WSleep hasta => hasta <= reloj s + SLEEP_SECS
  | _ => True
  end.

(** One turn of the worker's loop below the watermark: lines 73, 75-77
    and 78. *)
Definition ciclo (r : api_result) : list label :=
  [WCheck; WGenerate r; WEnqueue].

Definition is_fallback (l : label) : bool :=
  match l with CFallback _ _ => true | _ => false end.

(** ** The route [/quiz] *)

Module Quiz.

(** [d[k]]: the value, [KeyError] on a dictionary without the key,
    [TypeError] on a value that is no dictionary.  Exceptions are written as
    their class followed by their argument. *)
Definition subscript (d : pyval) (k : string) : outcome pyval :=
  match d with
  | PDict kv =>
      match dict_lookup kv k with
      | Some v => Ret v
      | None => Raise ("KeyError: '" ++ k ++ "'")%string
      end
  | _ => Raise ("TypeError: '" ++ type_name d ++ "'")%string
  end.

(** [d.get(k, default)] *)
Definition metodo_get (d : pyval) (k : string) (default : pyval)
    : outcome pyval :=
  match d with
  | PDict kv => Ret (dict_get_default kv k default)
  | _ =>
      Raise ("AttributeError: '" ++ type_name d
             ++ "' object has no attribute 'get'")%string
  end.

(** [v.strip()]: only a string has the method. *)
Definition metodo_strip (v : pyval) : outcome string :=
  match v with
  | PStr s => Ret (PyStr.strip s)
  | _ =>
      Raise ("AttributeError: '" ++ type_name v
             ++ "' object has no attribute 'strip'")%string
  end.

(** [request.form.get('respuesta')] as a Python value. *)
Definition valor_seleccion (seleccion : option string) : pyval :=
  match seleccion with Some s => PStr s | None => PNone end.

(** What the route renders. *)
Inductive pagina : Type :=
| QuizHtml (pregunta : pyval) (num_pregunta : Z)
| ResultadoHtml (correctas tiempo : Z) (errores : list pyval).

Section Handler.

(** The readings of [time.time()], and [int(t1 - t0)] on them. *)
Variable T : Type.
Variable segundos : T -> T -> Z.

(** The Flask session.  It is signed with the application's secret, so
    each key is absent or holds what this code stored under it. *)
Record sesion : Type := {
  puntaje : option Z;
  total : option Z;
  inicio : option T;
  pregunta_actual : option pyval;
  errores : option (list pyval)
}.

Definition vacia : sesion :=
  {| puntaje := None; total := None; inicio := None;
     pregunta_actual := None; errores := None |}.

(** A computation on the session that returns or raises; the session is
    given back as it stands in both cases. *)
Definition M (A : Type) : Type := sesion -> outcome A * sesion.

Definition ret {A : Type} (a : A) : M A := fun ses => (Ret a, ses).

Definition lift {A : Type} (o : outcome A) : M A := fun ses => (o, ses).

Definition bind {A B : Type} (m : M A) (f : A -> M B) : M B :=
  fun ses =>
    match m ses with
    | (Ret a, ses') => f a ses'
    | (Raise e, ses') => (Raise e, ses')
    end.

(** [session[k]] *)
Definition leer {A : Type} (campo : sesion -> option A) (k : string) : M A :=
  fun ses =>
    match campo ses with
    | Some a => (Ret a, ses)
    | None => (Raise ("KeyError: '" ++ k ++ "'")%string, ses)
    end.

(** [session.get(k, default)] *)
Definition leer_o {A : Type} (campo : sesion -> option A) (default : A)
    : M A :=
  fun ses =>
    match campo ses with
    | Some a => (Ret a, ses)
    | None => (Ret default, ses)
    end.

(** [k in session] *)
Definition tiene {A : Type} (campo : sesion -> option A) : M bool :=
  fun ses =>
    (Ret (match campo ses with Some _ => true | None => false end), ses).

Definition set_puntaje (v : Z) : M unit :=
  fun ses =>
    (Ret tt, {| puntaje := Some v; total := total ses; inicio := inicio ses;
                pregunta_actual := pregunta_actual ses;
                errores := errores ses |}).

Definition set_total (v : Z) : M unit :=
  fun ses =>
    (Ret tt, {| puntaje := puntaje ses; total := Some v; inicio := inicio ses;
                pregunta_actual := pregunta_actual ses;
                errores := errores ses |}).

Definition set_inicio (v : T) : M unit :=
  fun ses =>
    (Ret tt, {| puntaje := puntaje ses; total := total ses; inicio := Some v;
                pregunta_actual := pregunta_actual ses;
                errores := errores ses |}).

Definition set_pregunta_actual (v : pyval) : M unit :=
  fun ses =>
    (Ret tt, {| puntaje := puntaje ses; total := total ses;
                inicio := inicio ses; pregunta_actual := Some v;
                errores := errores ses |}).

Definition set_errores (v : list pyval) : M unit :=
  fun ses =>
    (Ret tt, {| puntaje := puntaje ses; total := total ses;
                inicio := inicio ses;
                pregunta_actual := pregunta_actual ses;
                errores := Some v |}).

(** [session.clear()] *)
Definition clear : M unit := fun _ => (Ret tt, vacia).

Notation "x <- m ;; k" := (bind m (fun x => k))
  (at level 61, m at next level, right associativity).
Notation "m ;;; k" := (bind m (fun _ => k))
  (at level 61, right associativity).

(** Lines 155-161, with the reading of the clock and the outcome of
    [obtener_pregunta_cache()]. *)
Definition iniciar (ahora : T) (primera : outcome pyval) : M unit :=
  set_puntaje 0 ;;;
  set_total 0 ;;;
  set_inicio ahora ;;;
  p <- lift primera ;;
  set_pregunta_actual p ;;;
  set_errores [].

(** Line 168: [seleccion and seleccion.strip() == correcta.strip()]. *)
Definition acierta (seleccion : option string) (correcta : pyval) : M bool :=
  match seleccion with
  | None => ret false
  | Some EmptyString => ret false
  | Some sel =>
      c <- lift (metodo_strip correcta) ;;
      ret (String.eqb (PyStr.strip sel) c)
  end.

(** Lines 171-180. *)
Definition anotar_error (actual correcta explicacion : pyval)
    (seleccion : option string) : M unit :=
  errs <- leer_o errores [] ;;
  p <- lift (subscript actual "pregunta") ;;
  c <- lift (subscript actual "codigo") ;;
  r <- lift (subscript actual "respuestas") ;;
  set_errores
    (errs ++ [PDict [("pregunta", p); ("codigo", c); ("respuestas", r);
                     ("respuesta_correcta", correcta);
                     ("explicacion", explicacion);
                     ("respuesta_usuario", valor_seleccion seleccion)]]).

(** Lines 163-189: the page of the result when the game is over, nothing
    when the quiz page is still to be rendered. *)
Definition responder (seleccion : option string) (ahora : T)
    (siguiente : outcome pyval) : M (option pagina) :=
  actual <- leer pregunta_actual "pregunta_actual" ;;
  correcta <- lift (subscript actual "respuesta_correcta") ;;
  explicacion <- lift (metodo_get actual "explicacion" (PStr "")) ;;
  t <- leer total "total" ;;
  set_total (t + 1) ;;;
  ok <- acierta seleccion correcta ;;
  (if ok : bool
   then p <- leer puntaje "puntaje" ;; set_puntaje (p + 1)
   else anotar_error actual correcta explicacion seleccion) ;;;
  t' <- leer total "total" ;;
  if (5 <=? t')%Z
  then
    ini <- leer inicio "inicio" ;;
    p <- leer puntaje "puntaje" ;;
    errs <- leer_o errores [] ;;
    clear ;;;
    ret (Some (ResultadoHtml p (segundos ahora ini) errs))
  else
    q <- lift siguiente ;;
    set_pregunta_actual q ;;;
    ret None.

(** The view function [quiz]: the method, the form field, the clock, and
    the outcomes of the calls of [obtener_pregunta_cache()] at lines 160
    and 189. *)
Definition quiz (post : bool) (seleccion : option string) (ahora : T)
    (primera siguiente : outcome pyval) : M pagina :=
  ya <- tiene puntaje ;;
  (if ya : bool then ret tt else iniciar ahora primera) ;;;
  temprano <- (if post then responder seleccion ahora siguiente
               else ret None) ;;
  match temprano with
  | Some pag => ret pag
  | None =>
      p <- leer pregunta_actual "pregunta_actual" ;;
      t <- leer_o total 0%Z ;;
      ret (QuizHtml p (t + 1))
  end.

(** A game in progress: all five keys, the score and the errors adding up
    to the answers given, fewer than five of them. *)
Definition en_juego (ses : sesion) : Prop :=
  exists p t ini q errs,
    ses = {| puntaje := Some p; total := Some t; inicio := Some ini;
             pregunta_actual := Some q; errores := Some errs |}
    /\ (0 <= p)%Z /\ (p + Z.of_nat (List.length errs) = t)%Z /\ (t < 5)%Z.

(** The comparison of line 168 on a string answer. *)
Definition coincide (seleccion : option string) (correcta : string) : bool :=
  match seleccion with
  | None => false
  | Some EmptyString => false
  | Some sel => String.eqb (PyStr.strip sel) (PyStr.strip correcta)
  end.

End Handler.

End Quiz.

(** ** Concrete sessions *)

(** The question decoded from [texto_completo]. *)
Definition item_completo : pyval :=
  PDict [("pregunta", PStr "Que salida tiene?");
         ("codigo", PStr "Escribir 1+1");
         ("respuestas", PList [PStr "2"; PStr "11"]);
         ("respuesta_correcta", PStr "2");
         ("explicacion", PStr "Suma")].

(** The clock in whole seconds. *)
Definition resta_segundos (t1 t0 : Z) : Z := (t1 - t0)%Z.

(** Four answers given, three of them right, the game started at 100. *)
Definition sesion_cuarta (q : pyval) : Quiz.sesion Z :=
  {| Quiz.puntaje := Some 3%Z; Quiz.total := Some 4%Z;
     Quiz.inicio := Some 100%Z; Quiz.pregunta_actual := Some q;
     Quiz.errores := Some [PNone] |}.



(** ** Proof automation *)

Ltac step_inv H :=
  unfold step in H;
  repeat match type of H with
    | context [match ?x with _ => _ end] => destruct x eqn:?; try discriminate H
    end;
  try (injection H as H; try subst).

(** ** Strings: splitting and stripping *)

Module PyStrFacts.
Import PyStr.

Lemma split_comma_nonempty (s : string) : split_comma s <> [].
Proof.
  destruct s as [|c s]; simpl; [discriminate|].
  destruct (Ascii.eqb c ","); [discriminate|].
  destruct (split_comma s); discriminate.
Qed.

(** Joining the pieces with commas gives the string back. *)
Lemma join_split_comma (s : string) : join_comma (split_comma s) = s.
Proof.
  induction s as [|c s IH]; [reflexivity|].
  simpl. destruct (Ascii.eqb c ",") eqn:E.
  - apply Ascii.eqb_eq in E. subst c.
    destruct (split_comma s) as [|p ps] eqn:S.
    + now apply split_comma_nonempty in S.
    + cbn [join_comma]. rewrite <- IH. reflexivity.
  - destruct (split_comma s) as [|p ps] eqn:S.
    + now apply split_comma_nonempty in S.
    + rewrite <- IH. destruct ps; reflexivity.
Qed.

(** No piece holds a comma. *)
Lemma split_comma_no_comma (s : string) :
  Forall (fun p => contains "," p = false) (split_comma s).
Proof.
  induction s as [|c s IH]; simpl.
  - repeat constructor.
  - destruct (Ascii.eqb c ",") eqn:E.
    + constructor; [reflexivity | exact IH].
    + destruct (split_comma s) as [|p ps].
      * constructor; [|constructor].
        cbn [contains]. now rewrite Ascii.eqb_sym, E.
      * inversion IH; subst. constructor; [|assumption].
        cbn [contains]. rewrite Ascii.eqb_sym, E. assumption.
Qed.

Lemma lstrip_decompose (s : string) :
  exists pre, s = (pre ++ lstrip s)%string /\ all_space pre = true.
Proof.
  induction s as [|c s [pre [E A]]]; simpl.
  - exists "". split; reflexivity.
  - destruct (isspace c) eqn:C.
    + exists (String c pre). simpl. rewrite C, A. split; [now f_equal|reflexivity].
    + exists "". split; reflexivity.
Qed.

Lemma rstrip_decompose (s : string) :
  exists post, s = (rstrip s ++ post)%string /\ all_space post = true.
Proof.
  induction s as [|c s [post [E A]]].
  - exists "". split; reflexivity.
  - cbn [rstrip]. destruct (all_space (String c s)) eqn:C.
    + exists (String c s). split; [reflexivity|assumption].
    + exists post. split; [simpl; now f_equal|assumption].
Qed.

Lemma lstrip_first (s : string) (c : ascii) :
  first_char (lstrip s) = Some c -> isspace c = false.
Proof.
  induction s as [|d s IH]; simpl; [discriminate|].
  destruct (isspace d) eqn:D; [exact IH|].
  simpl. intros [= <-]. exact D.
Qed.

Lemma rstrip_first (s : string) : first_char (rstrip s) = first_char s
                                  \/ rstrip s = "".
Proof.
  destruct s as [|c s]; [now left|].
  cbn [rstrip]. destruct (all_space (String c s)); [now right|now left].
Qed.

Lemma all_space_false_rstrip (s : string) :
  all_space s = false -> rstrip s <> "".
Proof.
  destruct s as [|c s]; [discriminate|].
  intros H. cbn [rstrip]. rewrite H. discriminate.
Qed.

Lemma rstrip_last (s : string) (c : ascii) :
  last_char (rstrip s) = Some c -> isspace c = false.
Proof.
  induction s as [|d s IH]; [discriminate|].
  cbn [rstrip]. destruct (all_space (String d s)) eqn:A; [discriminate|].
  cbn [all_space] in A.
  destruct (rstrip s) as [|e r] eqn:R.
  - simpl. intros [= <-].
    destruct (isspace d); [|reflexivity]. simpl in A.
    destruct s as [|e s]; [discriminate|].
    exfalso. revert R. apply all_space_false_rstrip. exact A.
  - intros H. apply IH. exact H.
Qed.

(** [strip] removes a whitespace prefix and a whitespace suffix, and what
    is left neither starts nor ends with whitespace. *)
Lemma strip_spec (s : string) :
  (exists pre post, s = (pre ++ strip s ++ post)%string
                    /\ all_space pre = true /\ all_space post = true)
  /\ (forall c, first_char (strip s) = Some c -> isspace c = false)
  /\ (forall c, last_char (strip s) = Some c -> isspace c = false).
Proof.
  unfold strip. split; [|split].
  - destruct (lstrip_decompose s) as [pre [E A]].
    destruct (rstrip_decompose (lstrip s)) as [post [E' A']].
    exists pre, post. split; [|split; assumption].
    rewrite <- E'. exact E.
  - intros c H. destruct (rstrip_first (lstrip s)) as [F|F].
    + rewrite F in H. now apply lstrip_first in H.
    + rewrite F in H. discriminate.
  - intros c. apply rstrip_last.
Qed.

Example strip_ejemplo : strip "  B c  " = "B c".
Proof. reflexivity. Qed.

Example split_ejemplo : split_comma "a, b,,c" = ["a"; " b"; ""; "c"].
Proof. reflexivity. Qed.

Example limpiar_ejemplo :
  limpiar ("```json" ++ "{}" ++ "```")%string = "{}".
Proof. reflexivity. Qed.

End PyStrFacts.

(** ** The queue keeps its bound *)

Module QueueFacts.
Import Queue.

Lemma put_spec (q : t) (x : pyval) :
  (0 < maxsize q)%Z ->
  (Z.of_nat (qsize q) < maxsize q)%Z
    /\ put q x = Some {| maxsize := maxsize q; items := items q ++ [x] |}
  \/ (maxsize q <= Z.of_nat (qsize q))%Z /\ put q x = None.
Proof.
  intros Hm. unfold put, full.
  destruct (maxsize q <=? Z.of_nat (qsize q))%Z eqn:E.
  - right. apply Z.leb_le in E. split; [exact E|].
    apply Z.ltb_lt in Hm. now rewrite Hm.
  - left. apply Z.leb_gt in E. split; [exact E|].
    now rewrite andb_false_r.
Qed.

Lemma put_maxsize (q q' : t) (x : pyval) :
  put q x = Some q' -> maxsize q' = maxsize q /\ items q' = items q ++ [x].
Proof.
  unfold put. destruct (full q); [discriminate|].
  intros [= <-]. split; reflexivity.
Qed.

Lemma put_bounded (q q' : t) (x : pyval) :
  (0 < maxsize q)%Z -> bounded q -> put q x = Some q' -> bounded q'.
Proof.
  intros Hm Hb Hp. destruct (put_spec q x Hm) as [[Hlt E]|[_ E]];
    rewrite E in Hp; [|discriminate].
  injection Hp as <-. unfold bounded, qsize in *. simpl.
  rewrite length_app. simpl. lia.
Qed.

Lemma take_spec (q q' : t) (x : pyval) :
  take q = Some (x, q') -> maxsize q' = maxsize q /\ items q = x :: items q'.
Proof.
  unfold take. destruct (items q) as [|y rest] eqn:E; [discriminate|].
  intros [= <- <-]. split; reflexivity.
Qed.

Lemma take_none (q : t) : take q = None <-> items q = [].
Proof.
  unfold take. destruct (items q); split; congruence.
Qed.

Lemma take_bounded (q q' : t) (x : pyval) :
  bounded q -> take q = Some (x, q') -> bounded q'.
Proof.
  intros Hb Ht. apply take_spec in Ht as [Hm Hi].
  unfold bounded, qsize in *. rewrite Hi in Hb. simpl in Hb. lia.
Qed.

Lemma apply_bounded (o : op) (q : t) :
  (0 < maxsize q)%Z -> bounded q ->
  maxsize (apply o q) = maxsize q /\ bounded (apply o q).
Proof.
  intros Hm Hb. destruct o as [th x|th]; simpl.
  - destruct (put q x) as [q'|] eqn:E; [|now split].
    split; [now apply put_maxsize in E|now apply (put_bounded q q' x)].
  - destruct (take q) as [[x q']|] eqn:E; [|now split].
    split; [now apply take_spec in E|now apply (take_bounded q q' x)].
Qed.

End QueueFacts.

(** C1. Capacity invariant: along every schedule of [put] and [get]
    operations issued by any threads on the cache
    [Queue(maxsize=CACHE_SIZE)], the size stays between 0 and the capacity 40
    after every operation, whatever the number of enqueuers. *)
Theorem cache_capacity_invariant (ops : list Queue.op) (q : Queue.t) :
  Queue.maxsize q = CACHE_SIZE ->
  Queue.bounded q ->
  Forall (fun q' => Queue.maxsize q' = 40%Z
                    /\ (0 <= Z.of_nat (Queue.qsize q') <= 40)%Z)
         (Queue.history ops q).
Proof.
  revert q. induction ops as [|o ops IH]; intros q Hm Hb; simpl.
  - constructor.
  - assert (Hpos : (0 < Queue.maxsize q)%Z) by (rewrite Hm; reflexivity).
    destruct (QueueFacts.apply_bounded o q Hpos Hb) as [Hm' Hb'].
    rewrite Hm in Hm'. constructor.
    + split; [exact Hm'|]. unfold Queue.bounded in Hb'.
      rewrite Hm' in Hb'. exact Hb'.
    + apply IH; assumption.
Qed.

(** Forty-two producers and a consumer on the fresh cache. *)
Lemma cache_capacity_invariant_witness :
  Forall (fun q' => Queue.maxsize q' = 40%Z
                    /\ (0 <= Z.of_nat (Queue.qsize q') <= 40)%Z)
         (Queue.history
            (map (fun th => Queue.Put th (PInt (Z.of_nat th))) (seq 0 42)
             ++ [Queue.Get 50; Queue.Put 51 PNone; Queue.Put 52 PNone])
            (Queue.new CACHE_SIZE)).
Proof.
  apply cache_capacity_invariant.
  - reflexivity.
  - unfold Queue.bounded, CACHE_SIZE. simpl. lia.
Defined.

(** ** Runs of the system *)

Section Runs.

Variable json_loads : string -> pyval + string.

Local Abbreviation step := (step json_loads).
Local Abbreviation run := (run json_loads).
Local Abbreviation generar_pregunta := (generar_pregunta json_loads).

Lemma run_app (l1 l2 : list label) (s : system) :
  run (l1 ++ l2) s
  = match run l1 s with Some s' => run l2 s' | None => None end.
Proof.
  revert s. induction l1 as [|l l1 IH]; intros s; simpl; [reflexivity|].
  destruct (step l s); [apply IH|reflexivity].
Qed.

Lemma run_snoc (ls : list label) (l : label) (s s' : system) :
  run (ls ++ [l]) s = Some s' ->
  exists s1, run ls s = Some s1 /\ step l s1 = Some s'.
Proof.
  rewrite run_app. destruct (run ls s) as [s1|]; [|discriminate].
  simpl. destruct (step l s1) as [s2|] eqn:E; [|discriminate].
  intros [= <-]. exists s1. split; [reflexivity|exact E].
Qed.

(** A property kept by every step is kept by every run. *)
Lemma run_preserves (P : system -> Prop) :
  (forall l s s', P s -> step l s = Some s' -> P s') ->
  forall ls s s', P s -> run ls s = Some s' -> P s'.
Proof.
  intros Hstep ls. induction ls as [|l ls IH]; intros s s' HP Hrun.
  - simpl in Hrun. now injection Hrun as <-.
  - simpl in Hrun. destruct (step l s) as [s1|] eqn:E; [|discriminate].
    apply (IH s1); [apply (Hstep l s)|]; assumption.
Qed.

Lemma step_cache_effect (l : label) (s s' : system) :
  step l s = Some s' -> cache_effect l s s'.
Proof.
  intros H. destruct l; step_inv H;
    try (apply Untouched; reflexivity).
  - eapply Enqueued; try reflexivity; eassumption.
  - match goal with
    | Ht : Queue.take _ = Some (?x, _) |- _ =>
        apply (Delivered _ _ _ c x (reloj s))
    end; simpl; rewrite ?Nat.eqb_refl; auto.
  - match goal with
    | Ht : Queue.take _ = Some (?x, _), Hc : llamadas _ _ = CWait ?t0 |- _ =>
        apply (Delivered _ _ _ c x t0)
    end; simpl; rewrite ?Nat.eqb_refl; auto.
Qed.

Lemma step_reloj (l : label) (s s' : system) :
  step l s = Some s' -> reloj s <= reloj s'.
Proof.
  intros H. destruct l; step_inv H; simpl; lia.
Qed.

Lemma run_reloj (ls : list label) (s s' : system) :
  run ls s = Some s' -> reloj s <= reloj s'.
Proof.
  revert s. induction ls as [|l ls IH]; intros s H; simpl in H.
  - injection H as <-. lia.
  - destruct (step l s) as [s1|] eqn:E; [|discriminate].
    apply step_reloj in E. apply IH in H. lia.
Qed.

End Runs.

(** ** Invariants of the worker and of the cache *)

Section Invariants.

Variable json_loads : string -> pyval + string.

Local Abbreviation step := (step json_loads).
Local Abbreviation run := (run json_loads).
Local Abbreviation generar_pregunta := (generar_pregunta json_loads).

Lemma tras_generar_cases (o : outcome pyval) :
  (exists p, o = Ret p /\ es_valida p = true /\ tras_generar o = WPut p)
  \/ ((forall p, o = Ret p -> es_valida p = false) /\ tras_generar o = WLoop).
Proof.
  destruct o as [p|e]; simpl.
  - destruct (es_valida p) eqn:E.
    + left. exists p. repeat split; assumption.
    + right. split; [|reflexivity]. intros p' [= <-]. exact E.
  - right. split; [|reflexivity]. intros p H. discriminate H.
Qed.

Lemma step_worker_ok (l : label) (s s' : system) :
  worker_ok s -> step l s = Some s' -> worker_ok s'.
Proof.
  intros Hw H. pose proof (step_cache_effect _ _ _ _ H) as Heff.
  unfold worker_ok in *.
  destruct l; step_inv H; simpl in *;
    repeat match goal with
      | E : hilo _ = _ |- _ => rewrite E in *; clear E
      end; auto.
  - apply Nat.ltb_lt in Heqb. split; [exact Heqb|lia].
  - destruct (tras_generar_cases (generar_pregunta r))
      as [[p [_ [Hv ->]]]|[_ ->]]; [|exact I].
    split; [lia|exact Hv].
  - apply QueueFacts.take_spec in Heqo as [_ Hi].
    unfold Queue.qsize in *. rewrite Hi in Hw. simpl in Hw.
    revert Hw. destruct (hilo s); intros Hw; auto; split; try apply Hw; lia.
  - apply QueueFacts.take_spec in Heqo as [_ Hi].
    unfold Queue.qsize in *. rewrite Hi in Hw. simpl in Hw.
    revert Hw. destruct (hilo s); intros Hw; auto; split; try apply Hw; lia.
Qed.

Lemma step_cache_ok (l : label) (s s' : system) :
  cache_ok s -> step l s = Some s' -> cache_ok s'.
Proof.
  intros [Hm Hb] H. unfold cache_ok.
  destruct (step_cache_effect _ _ _ _ H)
    as [E _ _|p _ _ _ Hp _ _|c x t0 _ _ _ Ht _ _].
  - rewrite E. now split.
  - split.
    + apply QueueFacts.put_maxsize in Hp as [-> _]. exact Hm.
    + apply (QueueFacts.put_bounded _ _ _ ltac:(rewrite Hm; reflexivity) Hb Hp).
  - split.
    + apply QueueFacts.take_spec in Ht as [-> _]. exact Hm.
    + apply (QueueFacts.take_bounded _ _ _ Hb Ht).
Qed.

Lemma run_worker_ok (ls : list label) (s s' : system) :
  worker_ok s -> run ls s = Some s' -> worker_ok s'.
Proof. apply (run_preserves json_loads worker_ok step_worker_ok). Qed.

Lemma run_cache_ok (ls : list label) (s s' : system) :
  cache_ok s -> run ls s = Some s' -> cache_ok s'.
Proof. apply (run_preserves json_loads cache_ok step_cache_ok). Qed.

(** Items are neither lost nor duplicated: what was handed out, followed by
    what is still queued, is what was there followed by what was put. *)
Lemma step_conservation (base : list pyval) (l : label) (s s' : system) :
  map snd (entregas s) ++ Queue.items (pregunta_cache s)
    = base ++ encoladas s ->
  step l s = Some s' ->
  map snd (entregas s') ++ Queue.items (pregunta_cache s')
    = base ++ encoladas s'.
Proof.
  intros Hc H.
  destruct (step_cache_effect _ _ _ _ H)
    as [E E1 E2|p _ _ _ Hp E1 E2|c x t0 _ _ _ Ht E1 E2].
  - now rewrite E, E1, E2.
  - apply QueueFacts.put_maxsize in Hp as [_ ->].
    rewrite E1, E2, !app_assoc. now rewrite Hc.
  - apply QueueFacts.take_spec in Ht as [_ Hi].
    rewrite E1, E2, map_app, <- app_assoc. simpl.
    rewrite <- Hi. exact Hc.
Qed.

Lemma step_llamadas_done (l : label) (s s' : system) (c : nat) :
  step l s = Some s' -> is_done (llamadas s c) -> llamadas s' c = llamadas s c.
Proof.
  intros H Hd. destruct l; step_inv H; simpl; try reflexivity;
    destruct (Nat.eqb c c0) eqn:E; try reflexivity;
    apply Nat.eqb_eq in E; subst c0;
    match goal with E : llamadas _ _ = _ |- _ => rewrite E in Hd end;
    destruct Hd.
Qed.

Lemma step_entregas_ok (l : label) (s s' : system) :
  entregas_ok s -> step l s = Some s' -> entregas_ok s'.
Proof.
  intros [Hnd Hin] H.
  assert (Hkeep : forall c x, In (c, x) (entregas s) ->
            exists t0 t1, llamadas s' c = CDone t0 t1 (Ret x)).
  { intros c x Hc. destruct (Hin c x Hc) as (t0 & t1 & E).
    exists t0, t1. rewrite <- E. apply (step_llamadas_done l); [exact H|].
    now rewrite E. }
  destruct (step_cache_effect _ _ _ _ H)
    as [_ E1 _|p _ _ _ _ E1 _|c x t0 Hl Hc' _ _ E1 _];
    unfold entregas_ok; rewrite E1.
  - split; [exact Hnd|exact Hkeep].
  - split; [exact Hnd|exact Hkeep].
  - rewrite map_app. simpl.
    assert (Hnot : ~ In c (map fst (entregas s))).
    { intros Hc. apply in_map_iff in Hc as ([c1 x1] & Hfst & Hc).
      simpl in Hfst. subst c1. destruct (Hin c x1 Hc) as (a & b & E).
      destruct Hl as [[_ [E' _]]|[_ E']]; rewrite E' in E; discriminate E. }
    split.
    + apply NoDup_app; [exact Hnd|repeat constructor; intros []|].
      intros a Ha [<-|[]]. exact (Hnot Ha).
    + intros c' x' Hc'0. apply in_app_or in Hc'0 as [Hc'0|[[= <- <-]|[]]].
      * apply Hkeep, Hc'0.
      * exists t0, (reloj s). exact Hc'.
Qed.

End Invariants.

(** ** The life of a call of [obtener_pregunta_cache] *)

Section Calls.

Variable json_loads : string -> pyval + string.

Local Abbreviation step := (step json_loads).
Local Abbreviation run := (run json_loads).
Local Abbreviation generar_pregunta := (generar_pregunta json_loads).
Local Abbreviation call_ok := (call_ok json_loads).

Lemma step_entregas_incl (l : label) (s s' : system) (e : nat * pyval) :
  step l s = Some s' -> In e (entregas s) -> In e (entregas s').
Proof.
  intros H Hin.
  destruct (step_cache_effect _ _ _ _ H)
    as [_ E1 _|p _ _ _ _ E1 _|c x t0 _ _ _ _ E1 _]; rewrite E1; auto.
  apply in_or_app. now left.
Qed.

Lemma step_other_call (c : nat) (l : label) (s s' : system) :
  step l s = Some s' -> of_call c l = false -> llamadas s' c = llamadas s c.
Proof.
  intros H Hl. destruct l; step_inv H; simpl in *; try reflexivity;
    now rewrite Hl.
Qed.

Lemma call_ok_frame (c desde : nat) (tr : list label) (s s' : system) :
  llamadas s' c = llamadas s c ->
  reloj s <= reloj s' ->
  (forall e, In e (entregas s) -> In e (entregas s')) ->
  call_ok c desde tr s -> call_ok c desde tr s'.
Proof.
  unfold call_ok. intros -> Hr He.
  destruct (llamadas s c) as [|t0|t0|t0 t1 r]; auto.
  - intros (Ht & Hd & Hx). repeat split; auto. lia.
  - intros (Hd & H1 & [(x & Hx & Hin & Htr)|Hf]).
    + split; [exact Hd|]. split; [lia|]. left. exists x. auto.
    + split; [exact Hd|]. split; [lia|]. now right.
Qed.

Lemma step_call_ok (c desde : nat) (tr : list label) (l : label)
    (s s' : system) :
  desde <= reloj s ->
  call_ok c desde tr s -> step l s = Some s' ->
  call_ok c desde (tr ++ call_trace c [l]) s'.
Proof.
  intros Hd Hok H. unfold call_trace. simpl.
  destruct (of_call c l) eqn:Hl.
  - unfold call_ok in *.
    destruct l; simpl in Hl; try discriminate Hl;
      apply Nat.eqb_eq in Hl; subst c0;
      step_inv H; simpl; rewrite ?Nat.eqb_refl.
    + split; [exact Hd|]. split; [lia|]. left.
      eexists. split; [reflexivity|]. split; [|now left].
      apply in_or_app. right. now left.
    + split; [reflexivity|exact Hd].
    + destruct Hok as [-> Hd0]. split; [exact Hd0|]. split; [lia|]. left.
      eexists. split; [reflexivity|]. split; [|now right].
      apply in_or_app. right. now left.
    + destruct Hok as [-> Hd0]. split; [reflexivity|]. split; [exact Hd0|].
      now apply Nat.leb_le.
    + destruct Hok as (-> & Hd0 & Ht). split; [exact Hd0|]. split; [lia|].
      right. exists r. repeat split. exact Ht.
  - rewrite app_nil_r.
    apply (call_ok_frame c desde tr s s'); auto.
    + apply (step_other_call c l); assumption.
    + apply (step_reloj json_loads l); assumption.
    + intros e. apply (step_entregas_incl l); assumption.
Qed.

Lemma run_call_ok (c : nat) (ls : list label) (s s' : system) :
  llamadas s c = CIdle -> run ls s = Some s' ->
  call_ok c (reloj s) (call_trace c ls) s'.
Proof.
  intros Hidle. revert s'.
  induction ls as [|l ls IH] using rev_ind; intros s' Hrun.
  - simpl in Hrun. injection Hrun as <-. unfold call_ok. now rewrite Hidle.
  - apply run_snoc in Hrun as (s1 & Hrun & Hstep).
    unfold call_trace. rewrite filter_app.
    apply (step_call_ok c (reloj s) _ l s1 s'); auto.
    apply (run_reloj json_loads ls); assumption.
Qed.

End Calls.

(** ** As many calls as seeded items *)

Lemma called_app (l1 l2 : list label) :
  called (l1 ++ l2) = called l1 ++ called l2.
Proof.
  induction l1 as [|l l1 IH]; [reflexivity|].
  destruct l; simpl; rewrite IH; reflexivity.
Qed.

Lemma combine_snoc {A B : Type} (l : list A) (q rest : list B) (a : A) (x : B) :
  skipn (List.length l) q = x :: rest ->
  combine (l ++ [a]) q = combine l q ++ [(a, x)]
  /\ skipn (List.length (l ++ [a])) q = rest.
Proof.
  revert q. induction l as [|b l IH]; intros q H; simpl in *.
  - subst q. split; reflexivity.
  - destruct q as [|y q]; [discriminate H|].
    destruct (IH q H) as [E1 E2]. rewrite E1, E2. split; reflexivity.
Qed.

Lemma skipn_cons_lt {B : Type} (n : nat) (q : list B) :
  n < List.length q -> exists x rest, skipn n q = x :: rest.
Proof.
  revert q. induction n as [|n IH]; intros [|y q] H; simpl in *; try lia.
  - now exists y, q.
  - apply IH. lia.
Qed.

Lemma map_snd_combine_full {A B : Type} (l : list A) (q : list B) :
  List.length l = List.length q -> map snd (combine l q) = q.
Proof.
  revert q. induction l as [|a l IH]; intros [|y q] H; simpl in *;
    try discriminate H; [reflexivity|].
  f_equal. apply IH. lia.
Qed.

Lemma map_fst_combine_full {A B : Type} (l : list A) (q : list B) :
  List.length l = List.length q -> map fst (combine l q) = l.
Proof.
  revert q. induction l as [|a l IH]; intros [|y q] H; simpl in *;
    try discriminate H; [reflexivity|].
  f_equal. apply IH. lia.
Qed.

Section Seeded.

Variable json_loads : string -> pyval + string.

Local Abbreviation step := (step json_loads).
Local Abbreviation run := (run json_loads).

Lemma step_seeded_ok (q0 : list pyval) (ls : list label) (l : label)
    (s s' : system) :
  List.length (called (ls ++ [l])) <= List.length q0 ->
  seeded_ok q0 ls s -> step l s = Some s' -> seeded_ok q0 (ls ++ [l]) s'.
Proof.
  intros Hlen (He & Hq & Hin & Hout & Himm) H.
  assert (Hpc : forall c, llamadas s c = CIdle \/ is_done (llamadas s c)).
  { intros c. destruct (in_dec Nat.eq_dec c (called ls)) as [Hc|Hc].
    - right. destruct (Hin c Hc) as (t & x & ->). exact I.
    - left. now apply Hout. }
  unfold seeded_ok. rewrite called_app, forallb_app, Himm in *.
  destruct l; step_inv H; simpl in *; rewrite ?app_nil_r in *;
    try (repeat split; auto; fail);
    try (match goal with
         | E : llamadas s ?c = _ |- _ =>
             destruct (Hpc c) as [Hc|Hc]; rewrite E in Hc;
             (discriminate Hc || destruct Hc)
         end).
  - (* WEnqueue *)
    apply QueueFacts.put_maxsize in Heqo as [_ ->].
    rewrite Hq, app_assoc. repeat split; auto.
  - (* CCall, an item is there *)
    apply QueueFacts.take_spec in Heqo as [_ Hi].
    rewrite length_app in Hlen. simpl in Hlen.
    destruct (skipn_cons_lt (List.length (called ls)) q0) as (x & rest & Hs);
      [lia|].
    rewrite Hq, Hs in Hi. simpl in Hi. injection Hi as <- Hi.
    destruct (combine_snoc (called ls) q0 rest c x Hs) as [E1 E2].
    rewrite E1, E2, He. repeat split; auto.
    + intros c' Hc'. destruct (Nat.eqb_spec c' c) as [->|Hne].
      * now exists (reloj s), x.
      * apply in_app_or in Hc' as [Hc'|[<-|[]]]; [now apply Hin|easy].
    + intros c' Hc'. destruct (Nat.eqb_spec c' c) as [->|Hne].
      * exfalso. apply Hc', in_or_app. right. now left.
      * apply Hout. intros Hc'0. apply Hc', in_or_app. now left.
  - (* CCall, the queue is empty: excluded, an item is left *)
    exfalso. apply QueueFacts.take_none in Heqo.
    rewrite length_app in Hlen. simpl in Hlen.
    destruct (skipn_cons_lt (List.length (called ls)) q0) as (x & rest & Hs);
      [lia|].
    rewrite Hq, Hs in Heqo. discriminate Heqo.
Qed.

Lemma run_seeded_ok (ls : list label) (s0 s' : system) :
  entregas s0 = [] -> encoladas s0 = [] ->
  (forall c, llamadas s0 c = CIdle) ->
  List.length (called ls) <= Queue.qsize (pregunta_cache s0) ->
  run ls s0 = Some s' ->
  seeded_ok (Queue.items (pregunta_cache s0)) ls s'.
Proof.
  intros He Hq Hidle. revert s'.
  induction ls as [|l ls IH] using rev_ind; intros s' Hlen Hrun.
  - simpl in Hrun. injection Hrun as <-. unfold seeded_ok. simpl.
    rewrite He, Hq, app_nil_r. repeat split; auto. intros c [].
  - apply run_snoc in Hrun as (s1 & Hrun & Hstep).
    apply (step_seeded_ok _ ls l s1 s'); auto.
    apply IH; auto. rewrite called_app, length_app in Hlen.
    unfold Queue.qsize in *. lia.
Qed.

End Seeded.

(** ** Exactly-once delivery *)

(** C2. Exactly-once delivery.  Along every interleaving of the worker and
    of any number of calls of [obtener_pregunta_cache], observed from a state
    where no call has entered: the items handed out followed by the items
    still queued are the items that were queued followed by the items put
    (nothing lost, nothing duplicated); a call receives at most one item, and
    the item a call received is the one it returned.  When the calls are as
    many as the seeded items, the k-th call returns the k-th seeded item on
    entering, without waiting and without generating. *)
Theorem exactly_once_delivery (json_loads : string -> pyval + string)
    (ls : list label) (s0 s' : system) :
  entregas s0 = [] -> encoladas s0 = [] ->
  (forall c, llamadas s0 c = CIdle) ->
  run json_loads ls s0 = Some s' ->
  map snd (entregas s') ++ Queue.items (pregunta_cache s')
    = Queue.items (pregunta_cache s0) ++ encoladas s'
  /\ NoDup (map fst (entregas s'))
  /\ (forall c x, In (c, x) (entregas s') ->
                  exists t0 t1, llamadas s' c = CDone t0 t1 (Ret x))
  /\ (List.length (called ls) = Queue.qsize (pregunta_cache s0) ->
      entregas s' = combine (called ls) (Queue.items (pregunta_cache s0))
      /\ map snd (entregas s') = Queue.items (pregunta_cache s0)
      /\ (forall c, In c (called ls) ->
                    exists t x, llamadas s' c = CDone t t (Ret x)
                                /\ In (c, x) (entregas s'))
      /\ forallb immediate ls = true).
Proof.
  intros He Hq Hidle Hrun.
  assert (Hcons : map snd (entregas s') ++ Queue.items (pregunta_cache s')
                  = Queue.items (pregunta_cache s0) ++ encoladas s').
  { revert Hrun.
    apply (run_preserves json_loads
             (fun s => map snd (entregas s) ++ Queue.items (pregunta_cache s)
                       = Queue.items (pregunta_cache s0) ++ encoladas s)).
    - intros l s1 s2. apply step_conservation.
    - rewrite He, Hq, app_nil_r. reflexivity. }
  assert (Hok : entregas_ok s').
  { revert Hrun. apply (run_preserves json_loads entregas_ok).
    - intros l s1 s2. apply step_entregas_ok.
    - unfold entregas_ok. rewrite He. split; [constructor|intros c x []]. }
  destruct Hok as [Hnd Hret].
  split; [exact Hcons|]. split; [exact Hnd|]. split; [exact Hret|].
  intros Hlen.
  destruct (run_seeded_ok json_loads ls s0 s' He Hq Hidle) as
    (E & _ & Hin & _ & Himm); [lia|exact Hrun|].
  split; [exact E|]. split.
  - rewrite E. apply map_snd_combine_full. exact Hlen.
  - split; [|exact Himm]. intros c Hc.
    destruct (Hin c Hc) as (t & x & Hpc). exists t, x. split; [exact Hpc|].
    assert (Hfst : In c (map fst (entregas s'))).
    { rewrite E, map_fst_combine_full; [exact Hc|exact Hlen]. }
    apply in_map_iff in Hfst as ([c1 x1] & Hc1 & Hcx). simpl in Hc1. subst c1.
    destruct (Hret c x1 Hcx) as (a & b & Hpc'). rewrite Hpc in Hpc'.
    injection Hpc' as _ _ ->. exact Hcx.
Qed.

(** Three calls against three seeded items, the worker and the clock in
    between. *)
Lemma exactly_once_delivery_witness :
  exists s',
    run (loads_tabla []) [CCall 7; WCheck; CCall 2; Tick; CCall 5]
        (sembrado [PInt 1; PInt 2; PInt 3]) = Some s'
    /\ entregas s' = [(7, PInt 1); (2, PInt 2); (5, PInt 3)]
    /\ NoDup (map fst (entregas s')).
Proof.
  eexists. split; [reflexivity|].
  destruct (exactly_once_delivery (loads_tabla [])
              [CCall 7; WCheck; CCall 2; Tick; CCall 5]
              (sembrado [PInt 1; PInt 2; PInt 3]) _
              eq_refl eq_refl (fun _ => eq_refl) eq_refl)
    as (_ & Hnd & _ & Hn).
  destruct (Hn eq_refl) as (E & _).
  split; [exact E|exact Hnd].
Defined.

(** ** The wait and the fallback *)

Section Fallback.

Variable json_loads : string -> pyval + string.

Local Abbreviation step := (step json_loads).
Local Abbreviation run := (run json_loads).
Local Abbreviation generar_pregunta := (generar_pregunta json_loads).

Lemma step_empty (l : label) (s s' : system) :
  l <> WEnqueue -> Queue.items (pregunta_cache s) = [] ->
  step l s = Some s' ->
  Queue.items (pregunta_cache s') = []
  /\ entregas s' = entregas s /\ encoladas s' = encoladas s.
Proof.
  intros Hl Hq H.
  destruct (step_cache_effect _ _ _ _ H)
    as [E E1 E2|p El _ _ _ _ _|c x t0 _ _ _ Ht _ _].
  - rewrite E. auto.
  - contradiction.
  - apply QueueFacts.take_spec in Ht as [_ Hi]. rewrite Hq in Hi.
    discriminate Hi.
Qed.

Lemma run_empty (ls : list label) (s s' : system) :
  ~ In WEnqueue ls -> Queue.items (pregunta_cache s) = [] ->
  run ls s = Some s' ->
  Queue.items (pregunta_cache s') = []
  /\ entregas s' = entregas s /\ encoladas s' = encoladas s.
Proof.
  revert s. induction ls as [|l ls IH]; intros s Hno Hq Hrun; simpl in Hrun.
  - injection Hrun as <-. auto.
  - destruct (step l s) as [s1|] eqn:E; [|discriminate].
    destruct (step_empty l s s1) as (Hq1 & E1 & E2); auto.
    { intros ->. apply Hno. now left. }
    destruct (IH s1) as (Hq' & E1' & E2'); auto.
    { intros Hin. apply Hno. now right. }
    rewrite E1', E2'. auto.
Qed.

(** Seconds passing. *)
Lemma run_ticks (n : nat) (ls : list label) (s : system) :
  run (repeat Tick n ++ ls) s = run ls (Nat.iter n tick s).
Proof.
  revert s. induction n as [|n IH]; intros s; [reflexivity|].
  simpl. rewrite IH. f_equal.
  clear IH. induction n as [|n IHn]; [reflexivity|].
  simpl. now rewrite IHn.
Qed.

Lemma iter_tick (n : nat) (s : system) :
  reloj (Nat.iter n tick s) = n + reloj s
  /\ pregunta_cache (Nat.iter n tick s) = pregunta_cache s
  /\ llamadas (Nat.iter n tick s) = llamadas s.
Proof.
  induction n as [|n (E1 & E2 & E3)]; simpl; [auto|].
  rewrite E1, E2, E3. auto.
Qed.

Lemma run_espera_y_fallback (c : nat) (o : api_result) (s : system) :
  Queue.items (pregunta_cache s) = [] -> llamadas s c = CIdle ->
  exists s',
    run (espera_y_fallback c o) s = Some s'
    /\ llamadas s' c
       = CDone (reloj s) (reloj s + GET_TIMEOUT) (generar_pregunta o)
    /\ pregunta_cache s' = pregunta_cache s.
Proof.
  intros Hq Hidle. unfold espera_y_fallback.
  assert (Ht : Queue.take (pregunta_cache s) = None)
    by now apply QueueFacts.take_none.
  assert (H1 : step (CCall c) s = Some (set_llamada c (CWait (reloj s)) s)).
  { unfold step. now rewrite Hidle, Ht. }
  destruct (iter_tick GET_TIMEOUT (set_llamada c (CWait (reloj s)) s))
    as (E1 & E2 & E3).
  remember (set_llamada c (CWait (reloj s)) s) as s1 eqn:Hs1.
  remember (Nat.iter GET_TIMEOUT tick s1) as s2 eqn:Hs2.
  assert (Hpc2 : llamadas s2 c = CWait (reloj s)).
  { rewrite E3, Hs1. simpl. now rewrite Nat.eqb_refl. }
  assert (Hq2 : Queue.take (pregunta_cache s2) = None).
  { rewrite E2, Hs1. exact Ht. }
  assert (Hr2 : reloj s2 = reloj s + GET_TIMEOUT).
  { rewrite E1, Hs1. unfold GET_TIMEOUT. simpl. lia. }
  assert (H3 : step (CTimeout c) s2
               = Some (set_llamada c (CExcept (reloj s)) s2)).
  { unfold step. rewrite Hpc2, Hq2, Hr2, Nat.leb_refl. reflexivity. }
  remember (set_llamada c (CExcept (reloj s)) s2) as s3 eqn:Hs3.
  assert (Hpc3 : llamadas s3 c = CExcept (reloj s)).
  { rewrite Hs3. simpl. now rewrite Nat.eqb_refl. }
  assert (H4 : step (CFallback c o) s3
               = Some (set_llamada c
                         (CDone (reloj s) (reloj s3) (generar_pregunta o))
                         (count_generacion s3))).
  { unfold step. now rewrite Hpc3. }
  eexists. split.
  - change ([CCall c] ++ repeat Tick GET_TIMEOUT
            ++ [CTimeout c; CFallback c o])
      with (CCall c :: (repeat Tick GET_TIMEOUT
                        ++ [CTimeout c; CFallback c o])).
    cbn [run]. rewrite H1, run_ticks, <- Hs2. cbn [run].
    rewrite H3, H4. reflexivity.
  - split.
    + simpl. rewrite Nat.eqb_refl. f_equal.
      rewrite Hs3. simpl. exact Hr2.
    + simpl. rewrite Hs3. simpl. rewrite E2, Hs1. reflexivity.
Qed.

End Fallback.

(** C3. Timeout fallback.  A call that enters on an empty cache into which
    nothing is enqueued leaves no earlier than [GET_TIMEOUT] = 10 seconds
    after it entered; its own steps are the entry, the timeout and one call
    of [generar_pregunta], whose outcome (a value or an exception) is what it
    hands to its caller; the queue is still empty and nothing was put.  Such
    a call does leave: once ten seconds have passed the timeout and the
    fallback are enabled.  The fallback step itself, in any state, counts
    one generation and leaves the queue and the record of puts alone. *)
Theorem timeout_fallback (json_loads : string -> pyval + string)
    (c : nat) (s0 : system) :
  Queue.items (pregunta_cache s0) = [] ->
  entregas s0 = [] ->
  llamadas s0 c = CIdle ->
  (forall ls s' t0 t1 r,
      ~ In WEnqueue ls ->
      run json_loads ls s0 = Some s' ->
      llamadas s' c = CDone t0 t1 r ->
      reloj s0 <= t0 /\ t0 + 10 <= t1 /\ t1 <= reloj s'
      /\ (exists o, call_trace c ls = [CCall c; CTimeout c; CFallback c o]
                    /\ r = generar_pregunta json_loads o)
      /\ Queue.items (pregunta_cache s') = []
      /\ encoladas s' = encoladas s0)
  /\ (forall o, exists s',
        run json_loads (espera_y_fallback c o) s0 = Some s'
        /\ llamadas s' c
           = CDone (reloj s0) (reloj s0 + 10) (generar_pregunta json_loads o)
        /\ Queue.items (pregunta_cache s') = [])
  /\ (forall s o s',
        step json_loads (CFallback c o) s = Some s' ->
        pregunta_cache s' = pregunta_cache s
        /\ encoladas s' = encoladas s
        /\ generaciones s' = S (generaciones s)).
Proof.
  intros Hq He Hidle. split; [|split].
  - intros ls s' t0 t1 r Hno Hrun Hpc.
    destruct (run_empty json_loads ls s0 s' Hno Hq Hrun) as (Hq' & He' & Hp').
    pose proof (run_call_ok json_loads c ls s0 s' Hidle Hrun) as Hok.
    unfold call_ok in Hok. rewrite Hpc in Hok.
    destruct Hok as (Hd & H1 & [(x & _ & Hin & _)|(o & Hr & Htr & Ht)]).
    + rewrite He', He in Hin. destruct Hin.
    + unfold GET_TIMEOUT in Ht. repeat split; auto. now exists o.
  - intros o.
    destruct (run_espera_y_fallback json_loads c o s0 Hq Hidle)
      as (s' & Hrun & Hpc & Hc).
    exists s'. split; [exact Hrun|]. split; [exact Hpc|]. now rewrite Hc.
  - intros s o s' Hs. step_inv Hs. simpl. auto.
Qed.

(** From start-up, the remote API failing at the fallback. *)
Lemma timeout_fallback_witness :
  exists s',
    run (loads_tabla []) (espera_y_fallback 0 (ApiRaise "503")) arranque
      = Some s'
    /\ llamadas s' 0 = CDone 0 10 (Raise "503")
    /\ call_trace 0 (espera_y_fallback 0 (ApiRaise "503"))
       = [CCall 0; CTimeout 0; CFallback 0 (ApiRaise "503")].
Proof.
  destruct (timeout_fallback (loads_tabla []) 0 arranque
              eq_refl eq_refl eq_refl) as (Hall & Hex & _).
  destruct (Hex (ApiRaise "503")) as (s' & Hrun & Hpc & _).
  exists s'. split; [exact Hrun|]. split; [exact Hpc|reflexivity].
Defined.

Section Immediate.

Variable json_loads : string -> pyval + string.

Local Abbreviation step := (step json_loads).
Local Abbreviation run := (run json_loads).

Lemma step_done_not_of_call (c : nat) (l : label) (s s' : system) :
  step l s = Some s' -> is_done (llamadas s c) -> of_call c l = false.
Proof.
  intros H Hd. destruct l; try reflexivity; simpl;
    destruct (Nat.eqb_spec c c0) as [<-|Hne]; try reflexivity;
    step_inv H; destruct Hd.
Qed.

Lemma run_done (c : nat) (ls : list label) (s s' : system) :
  is_done (llamadas s c) -> run ls s = Some s' ->
  llamadas s' c = llamadas s c /\ call_trace c ls = [].
Proof.
  revert s. induction ls as [|l ls IH]; intros s Hd Hrun; simpl in Hrun.
  - injection Hrun as <-. auto.
  - destruct (step l s) as [s1|] eqn:E; [|discriminate].
    pose proof (step_llamadas_done json_loads l s s1 c E Hd) as Hk.
    pose proof (step_done_not_of_call c l s s1 E Hd) as Hn.
    destruct (IH s1) as [E1 E2]; [now rewrite Hk|exact Hrun|].
    unfold call_trace in *. simpl. rewrite Hn, E1, Hk. auto.
Qed.

End Immediate.

(** C4. Immediate path.  A call that enters while the cache is not empty
    leaves at once with the oldest cached item; entering does not call
    [generar_pregunta] (the count of generations is unchanged), and the call
    takes no further step however the system goes on: no fallback generation
    belongs to it. *)
Theorem immediate_path (json_loads : string -> pyval + string)
    (c : nat) (s : system) (x : pyval) (rest : list pyval) :
  llamadas s c = CIdle ->
  Queue.items (pregunta_cache s) = x :: rest ->
  exists s1,
    step json_loads (CCall c) s = Some s1
    /\ llamadas s1 c = CDone (reloj s) (reloj s) (Ret x)
    /\ Queue.items (pregunta_cache s1) = rest
    /\ generaciones s1 = generaciones s
    /\ forall ls s',
         run json_loads ls s1 = Some s' ->
         llamadas s' c = CDone (reloj s) (reloj s) (Ret x)
         /\ call_trace c ls = []
         /\ forall o, ~ In (CFallback c o) ls.
Proof.
  intros Hidle Hq. unfold step. rewrite Hidle. unfold Queue.take. rewrite Hq.
  eexists. split; [reflexivity|]. simpl. rewrite Nat.eqb_refl.
  split; [reflexivity|]. split; [reflexivity|]. split; [reflexivity|].
  intros ls s' Hrun.
  match type of Hrun with
  | run _ _ ?s1 = _ =>
      assert (Hd : is_done (llamadas s1 c))
        by (simpl; now rewrite Nat.eqb_refl);
      destruct (run_done json_loads c ls s1 s' Hd Hrun) as [E Htr]
  end.
  simpl in E. rewrite Nat.eqb_refl in E.
  split; [exact E|]. split; [exact Htr|].
  intros o Hin.
  assert (Hf : In (CFallback c o) (call_trace c ls)).
  { apply filter_In. split; [exact Hin|]. simpl. apply Nat.eqb_refl. }
  rewrite Htr in Hf. destruct Hf.
Qed.

(** One cached item, one call. *)
Lemma immediate_path_witness :
  exists s1,
    step (loads_tabla []) (CCall 3) (sembrado [PInt 1; PInt 2]) = Some s1
    /\ llamadas s1 3 = CDone 0 0 (Ret (PInt 1))
    /\ Queue.items (pregunta_cache s1) = [PInt 2]
    /\ generaciones s1 = 0.
Proof.
  destruct (immediate_path (loads_tabla []) 3 (sembrado [PInt 1; PInt 2])
              (PInt 1) [PInt 2] eq_refl eq_refl)
    as (s1 & Hs & Hpc & Hq & Hg & _).
  exists s1. repeat split; assumption.
Defined.

(** ** The worker *)

Section Worker.

Variable json_loads : string -> pyval + string.

Local Abbreviation step := (step json_loads).
Local Abbreviation run := (run json_loads).
Local Abbreviation generar_pregunta := (generar_pregunta json_loads).

Lemma step_not_worker_hilo (l : label) (s s' : system) :
  step l s = Some s' -> is_worker l = false -> hilo s' = hilo s.
Proof.
  intros H Hl. destruct l; try discriminate Hl; step_inv H; reflexivity.
Qed.

(** A worker step touches neither the calls nor the clock nor the
    deliveries. *)
Lemma step_worker_frame (l : label) (s s' : system) :
  step l s = Some s' -> is_worker l = true ->
  llamadas s' = llamadas s /\ reloj s' = reloj s /\ entregas s' = entregas s.
Proof.
  intros H Hl. destruct l; try discriminate Hl; step_inv H; simpl; auto.
Qed.

(** Inside [time.sleep(2)] the worker does nothing until the time is up. *)
Lemma run_asleep (hasta : nat) (ls : list label) (s s' : system) :
  hilo s = WSleep hasta -> run ls s = Some s' -> reloj s' < hasta ->
  forallb (fun l => negb (is_worker l)) ls = true /\ hilo s' = WSleep hasta.
Proof.
  revert s. induction ls as [|l ls IH]; intros s Hh Hrun Hlt; simpl in Hrun.
  - injection Hrun as <-. auto.
  - destruct (step l s) as [s1|] eqn:E; [|discriminate].
    pose proof (run_reloj json_loads ls s1 s' Hrun) as Hmono.
    destruct (is_worker l) eqn:Hw.
    + exfalso. destruct l; try discriminate Hw; step_inv E;
        try congruence.
      injection Hh as ->.
      apply Nat.leb_le in Heqb. simpl in Hmono. lia.
    + simpl. rewrite Hw. simpl. apply (IH s1); auto.
      rewrite (step_not_worker_hilo l s s1 E Hw). exact Hh.
Qed.

Lemma step_generate_enabled (r : api_result) (s s' : system) :
  step (WGenerate r) s = Some s' -> exists n, hilo s = WGenerar n.
Proof.
  intros H. step_inv H. now eexists.
Qed.

End Worker.

(** C9. Watermark gate.  In every run of the system from a state where the
    worker is at the head of its loop: [generar_pregunta] is called by the
    worker only after it read a size strictly below [CACHE_MIN] = 10 (and
    the queue is still below it); at the head of the loop, a size below 10
    leads to the generation, and a size of 10 or more leads to
    [time.sleep(2)], during which the worker takes no step before two
    seconds have passed. *)
Theorem watermark_gate (json_loads : string -> pyval + string)
    (ls : list label) (s0 s : system) :
  hilo s0 = WLoop ->
  run json_loads ls s0 = Some s ->
  (forall r s', step json_loads (WGenerate r) s = Some s' ->
      exists visto, hilo s = WGenerar visto /\ visto < 10
                    /\ Queue.qsize (pregunta_cache s) <= visto)
  /\ (hilo s = WLoop ->
      exists s1,
        step json_loads WCheck s = Some s1
        /\ (Queue.qsize (pregunta_cache s) < 10 ->
            hilo s1 = WGenerar (Queue.qsize (pregunta_cache s)))
        /\ (10 <= Queue.qsize (pregunta_cache s) ->
            hilo s1 = WSleep (reloj s + 2)
            /\ forall ls' s',
                run json_loads ls' s1 = Some s' -> reloj s' < reloj s + 2 ->
                forallb (fun l => negb (is_worker l)) ls' = true
                /\ hilo s' = WSleep (reloj s + 2))).
Proof.
  intros H0 Hrun.
  assert (Hok : worker_ok s).
  { apply (run_worker_ok json_loads ls s0 s); [|exact Hrun].
    unfold worker_ok. now rewrite H0. }
  split.
  - intros r s' Hs. destruct (step_generate_enabled _ _ _ _ Hs) as [n Hn].
    exists n. unfold worker_ok in Hok. rewrite Hn in Hok.
    unfold CACHE_MIN in Hok. tauto.
  - intros Hl. unfold step. rewrite Hl.
    destruct (Queue.qsize (pregunta_cache s) <? CACHE_MIN)%nat eqn:E.
    + apply Nat.ltb_lt in E. unfold CACHE_MIN in E.
      eexists. split; [reflexivity|]. split; [reflexivity|]. lia.
    + apply Nat.ltb_ge in E. unfold CACHE_MIN in E.
      eexists. split; [reflexivity|]. split; [lia|]. intros _.
      split; [reflexivity|]. intros ls' s' Hrun' Hlt.
      apply (run_asleep json_loads (reloj s + SLEEP_SECS) ls'
               (set_hilo (WSleep (reloj s + SLEEP_SECS)) s) s');
        [reflexivity|exact Hrun'|exact Hlt].
Qed.

(** The worker's first two loop heads after start-up, ten items seeded. *)
Lemma watermark_gate_witness :
  exists s1,
    step (loads_tabla []) WCheck (sembrado (repeat PNone 10)) = Some s1
    /\ hilo s1 = WSleep 2.
Proof.
  destruct (watermark_gate (loads_tabla []) [] (sembrado (repeat PNone 10))
              (sembrado (repeat PNone 10)) eq_refl eq_refl) as [_ H].
  destruct (H eq_refl) as (s1 & Hs & _ & Hsleep).
  exists s1. split; [exact Hs|].
  apply Hsleep. unfold Queue.qsize. simpl. lia.
Defined.

(** C7. Failure isolation in the worker.  When the call of
    [generar_pregunta] in the loop body raises, or returns a result that
    fails the validity test, the worker is back at the head of its loop with
    the cache, the clock and the calls as they were; no time passes before
    the next check, and while the cache is below the watermark that check
    leads straight to the next generation.  No worker step changes anything
    but the worker itself and the cache. *)
Theorem worker_swallows_failures (json_loads : string -> pyval + string)
    (s : system) (visto : nat) (r : api_result) :
  hilo s = WGenerar visto ->
  (exists e, generar_pregunta json_loads r = Raise e)
  \/ (exists p, generar_pregunta json_loads r = Ret p /\ es_valida p = false) ->
  (exists s1,
      step json_loads (WGenerate r) s = Some s1
      /\ hilo s1 = WLoop
      /\ pregunta_cache s1 = pregunta_cache s
      /\ reloj s1 = reloj s
      /\ llamadas s1 = llamadas s
      /\ encoladas s1 = encoladas s
      /\ exists s2,
           step json_loads WCheck s1 = Some s2
           /\ reloj s2 = reloj s
           /\ (Queue.qsize (pregunta_cache s) < 10 ->
               hilo s2 = WGenerar (Queue.qsize (pregunta_cache s))
               /\ forall r', exists s3,
                    step json_loads (WGenerate r') s2 = Some s3))
  /\ (forall l sa sb,
        is_worker l = true -> step json_loads l sa = Some sb ->
        llamadas sb = llamadas sa /\ reloj sb = reloj sa
        /\ entregas sb = entregas sa).
Proof.
  intros Hh Hfail. split.
  - assert (Ht : tras_generar (generar_pregunta json_loads r) = WLoop).
    { destruct Hfail as [[e ->]|[p [-> Hv]]]; simpl; [reflexivity|].
      now rewrite Hv. }
    unfold step at 1. rewrite Hh, Ht.
    eexists. split; [reflexivity|]. simpl.
    do 5 (split; [reflexivity|]).
    unfold step, set_hilo at 1. simpl.
    destruct (Queue.qsize (pregunta_cache s) <? CACHE_MIN)%nat eqn:E.
    + eexists. split; [reflexivity|]. split; [reflexivity|]. intros _.
      split; [reflexivity|]. intros r'. eexists. reflexivity.
    + apply Nat.ltb_ge in E. unfold CACHE_MIN in E.
      eexists. split; [reflexivity|]. split; [reflexivity|]. lia.
  - intros l sa sb Hw Hs. apply (step_worker_frame json_loads l); assumption.
Qed.

(** The remote API down while the cache is empty. *)
Lemma worker_swallows_failures_witness :
  exists s1,
    step (loads_tabla []) (WGenerate (ApiRaise "503"))
         (set_hilo (WGenerar 0) arranque) = Some s1
    /\ hilo s1 = WLoop.
Proof.
  destruct (worker_swallows_failures (loads_tabla [])
              (set_hilo (WGenerar 0) arranque) 0 (ApiRaise "503") eq_refl
              (or_introl (ex_intro _ "503" eq_refl)))
    as [(s1 & Hs & Hl & _) _].
  exists s1. split; assumption.
Defined.

(** ** The worker's [put] *)

(** C6, as stated, fails on a full cache: [put] is the blocking
    [Queue.put], which on 40 items out of 40 does not return at all
    (no [False] is reported), and the worker standing at line 78 has no
    step. *)
Lemma put_blocks_when_full :
  Queue.maxsize cache_llena = 40%Z
  /\ Queue.qsize cache_llena = 40
  /\ Queue.put cache_llena PNone = None
  /\ step (loads_tabla []) WEnqueue ante_cache_llena = None.
Proof. repeat split. Qed.

(** C6, amended.  [put] appends the item at once exactly when the size is
    strictly below the capacity 40, and waits (without returning anything)
    exactly when the cache is full.  In every run from a state where the
    worker is at the head of its loop, the worker reaches [put] only with
    fewer than [CACHE_MIN] = 10 items queued, so that its [put] is enabled
    and appends the item. *)
Theorem worker_put_inserts (json_loads : string -> pyval + string)
    (ls : list label) (s0 s : system) (p : pyval) :
  hilo s0 = WLoop ->
  cache_ok s0 ->
  run json_loads ls s0 = Some s ->
  hilo s = WPut p ->
  (forall q x, Queue.maxsize q = CACHE_SIZE ->
      (Queue.qsize q < 40 <->
       Queue.put q x = Some {| Queue.maxsize := Queue.maxsize q;
                               Queue.items := Queue.items q ++ [x] |})
      /\ (40 <= Queue.qsize q <-> Queue.put q x = None))
  /\ Queue.qsize (pregunta_cache s) < 10
  /\ exists s',
       step json_loads WEnqueue s = Some s'
       /\ Queue.items (pregunta_cache s')
          = Queue.items (pregunta_cache s) ++ [p]
       /\ hilo s' = WLoop.
Proof.
  intros H0 Hc0 Hrun Hp.
  assert (Hput : forall q x, Queue.maxsize q = CACHE_SIZE ->
            (Queue.qsize q < 40 <->
             Queue.put q x = Some {| Queue.maxsize := Queue.maxsize q;
                                     Queue.items := Queue.items q ++ [x] |})
            /\ (40 <= Queue.qsize q <-> Queue.put q x = None)).
  { intros q x Hm.
    destruct (QueueFacts.put_spec q x ltac:(rewrite Hm; reflexivity))
      as [[Hlt E]|[Hge E]]; rewrite Hm in *; unfold CACHE_SIZE in *;
      rewrite E; split; split; intros H; try reflexivity;
      try discriminate H; lia. }
  split; [exact Hput|].
  assert (Hok : worker_ok s).
  { apply (run_worker_ok json_loads ls s0 s); [|exact Hrun].
    unfold worker_ok. now rewrite H0. }
  assert (Hc : cache_ok s) by apply (run_cache_ok json_loads ls s0 s Hc0 Hrun).
  unfold worker_ok in Hok. rewrite Hp in Hok. destruct Hok as [Hlt _].
  unfold CACHE_MIN in Hlt. split; [exact Hlt|].
  destruct Hc as [Hm _].
  destruct (Hput (pregunta_cache s) p Hm) as [[Hins _] _].
  unfold step. rewrite Hp, Hins by lia.
  eexists. split; [reflexivity|]. split; reflexivity.
Qed.

(** ** The concrete responses, decoded *)

Example limpiar_texto_completo :
  limpiar texto_completo
  = ("{" ++ lit "Pregunta" ++ ": " ++ lit "Que salida tiene?" ++ ", "
     ++ lit "Codigo" ++ ": " ++ lit "Escribir 1+1" ++ ", "
     ++ lit "Respuestas" ++ ": [" ++ lit "2" ++ ", " ++ lit "11" ++ "], "
     ++ lit "Respuesta correcta" ++ ": " ++ lit "2" ++ ", "
     ++ lit "Explicacion" ++ ": " ++ lit "Suma" ++ "}")%string.
Proof. reflexivity. Qed.

Example generar_completo :
  generar_pregunta loads_ejemplos (ApiResponse texto_completo)
  = Ret (PDict [("pregunta", PStr "Que salida tiene?");
                ("codigo", PStr "Escribir 1+1");
                ("respuestas", PList [PStr "2"; PStr "11"]);
                ("respuesta_correcta", PStr "2");
                ("explicacion", PStr "Suma")]).
Proof. reflexivity. Qed.

Example generar_lista :
  generar_pregunta loads_ejemplos (ApiResponse "[1]")
  = Ret (error_dict "'list' object has no attribute 'get'" "[1]").
Proof. reflexivity. Qed.

Lemma cache_ok_arranque : cache_ok arranque.
Proof.
  split; [reflexivity|]. vm_compute. split; discriminate.
Qed.

(** The first question cached after start-up. *)
Lemma worker_put_inserts_witness :
  exists s s',
    run loads_ejemplos [WCheck; WGenerate (ApiResponse texto_completo)]
        arranque = Some s
    /\ step loads_ejemplos WEnqueue s = Some s'
    /\ Queue.qsize (pregunta_cache s') = 1.
Proof.
  eexists. 
  destruct (worker_put_inserts loads_ejemplos
              [WCheck; WGenerate (ApiResponse texto_completo)]
              arranque _ _ eq_refl cache_ok_arranque eq_refl eq_refl)
    as (_ & _ & s' & Hs & Hq & _).
  exists s'. split; [reflexivity|]. split; [exact Hs|].
  unfold Queue.qsize. rewrite Hq. reflexivity.
Defined.

(** ** The validity test *)



Lemma es_valida_error (detalle text : string) :
  es_valida (error_dict detalle text) = false.
Proof. reflexivity. Qed.

(** What [decodificar] yields: the question dictionary when the text
    decodes to a JSON object, the error dictionary otherwise. *)
Lemma decodificar_cases (json_loads : string -> pyval + string)
    (text : string) :
  (exists kv, json_loads (limpiar text) = inl (PDict kv)
              /\ decodificar json_loads text = armar_pregunta kv)
  \/ ((forall kv, json_loads (limpiar text) <> inl (PDict kv))
      /\ exists detalle, decodificar json_loads text = error_dict detalle text).
Proof.
  unfold decodificar. destruct (json_loads (limpiar text)) as [v|e].
  - destruct v; try (right; split; [discriminate|eexists; reflexivity]).
    left. now exists kv.
  - right. split; [discriminate|]. now exists e.
Qed.


(** ** Failures on the fallback path *)

(** C8, as stated, fails on a response that decodes but lacks the
    correct-answer field: it is no structurally complete item, yet the
    fallback hands it to the caller as an ordinary returned item, neither a
    raised exception nor the error dictionary. *)
Lemma fallback_returns_incomplete_item :
  spec_IsValid loads_ejemplos (ApiResponse texto_sin_correcta) = false
  /\ option_map (fun s => llamadas s 0)
       (run loads_ejemplos
          (espera_y_fallback 0 (ApiResponse texto_sin_correcta)) arranque)
     = Some (CDone 0 10 (Ret item_sin_correcta))
  /\ (forall e, Ret item_sin_correcta <> @Raise pyval e)
  /\ (forall detalle text, item_sin_correcta <> error_dict detalle text)
  /\ match item_sin_correcta with
     | PDict kv => dict_has kv "error"
     | _ => true
     end = false.
Proof.
  split; [reflexivity|]. split; [reflexivity|]. split; [discriminate|].
  split; [discriminate|reflexivity].
Qed.



(** ** The answer options *)

Lemma dict_get_lookup (kv : list (string * pyval)) (k : string) (v : pyval) :
  dict_lookup kv k = Some v -> dict_get kv k = v.
Proof. unfold dict_get. now intros ->. Qed.

(** C10. Decoding the answer options.  When the response decodes to a JSON
    object, the item is built and passes the validity test.  If
    [Respuestas] is a string, the options are the pieces of that string
    between its commas (joined with commas they give the string back, none
    holds a comma), each stripped of the whitespace at its two ends.  If
    [Respuestas] is neither a list nor a string (or is absent), the option
    list is empty, and the worker standing at the generation with room in
    the queue still puts that item into the cache. *)
Theorem respuestas_decoding (json_loads : string -> pyval + string)
    (text : string) (kv : list (string * pyval)) :
  json_loads (limpiar text) = inl (PDict kv) ->
  exists item,
    generar_pregunta json_loads (ApiResponse text) = Ret (PDict item)
    /\ es_valida (PDict item) = true
    /\ (forall str, dict_lookup kv "Respuestas" = Some (PStr str) ->
          dict_lookup item "respuestas"
          = Some (PList (map (fun r => PStr (PyStr.strip r))
                             (PyStr.split_comma str)))
          /\ PyStr.join_comma (PyStr.split_comma str) = str
          /\ Forall (fun r => PyStr.contains "," r = false)
                    (PyStr.split_comma str)
          /\ forall r, In r (PyStr.split_comma str) ->
               (exists pre post,
                   r = (pre ++ PyStr.strip r ++ post)%string
                   /\ PyStr.all_space pre = true
                   /\ PyStr.all_space post = true)
               /\ (forall ch, PyStr.first_char (PyStr.strip r) = Some ch ->
                              PyStr.isspace ch = false)
               /\ (forall ch, PyStr.last_char (PyStr.strip r) = Some ch ->
                              PyStr.isspace ch = false))
    /\ ((forall str, dict_lookup kv "Respuestas" <> Some (PStr str)) ->
        (forall l, dict_lookup kv "Respuestas" <> Some (PList l)) ->
        dict_lookup item "respuestas" = Some (PList [])
        /\ forall s visto,
             hilo s = WGenerar visto ->
             Queue.full (pregunta_cache s) = false ->
             exists s',
               run json_loads [WGenerate (ApiResponse text); WEnqueue] s
                 = Some s'
               /\ Queue.items (pregunta_cache s')
                  = Queue.items (pregunta_cache s) ++ [PDict item]).
Proof.
  intros Hl. unfold generar_pregunta, decodificar. rewrite Hl.
  unfold armar_pregunta.
  eexists. split; [reflexivity|]. split; [reflexivity|]. split.
  - intros str Hs. rewrite (dict_get_lookup _ _ _ Hs). simpl.
    split; [reflexivity|].
    split; [apply PyStrFacts.join_split_comma|].
    split; [apply PyStrFacts.split_comma_no_comma|].
    intros r _. apply PyStrFacts.strip_spec.
  - intros Hnostr Hnolist.
    assert (Hn : normalizar_respuestas (dict_get kv "Respuestas") = PList []).
    { unfold dict_get.
      destruct (dict_lookup kv "Respuestas") as [v|] eqn:E; [|reflexivity].
      destruct v; try reflexivity.
      - now destruct (Hnostr s).
      - now destruct (Hnolist l). }
    simpl. rewrite Hn. split; [reflexivity|].
    intros s visto Hh Hfull.
    unfold run, step, generar_pregunta, decodificar. rewrite Hh, Hl.
    unfold armar_pregunta. rewrite Hn. simpl. unfold Queue.put.
    simpl. rewrite Hfull. eexists. split; reflexivity.
Qed.

(** The answers given as the number 4, at start-up. *)
Lemma respuestas_decoding_witness :
  exists item,
    generar_pregunta loads_ejemplos (ApiResponse texto_respuestas_num)
    = Ret (PDict item)
    /\ dict_lookup item "respuestas" = Some (PList [])
    /\ es_valida (PDict item) = true.
Proof.
  destruct (respuestas_decoding loads_ejemplos texto_respuestas_num _ eq_refl)
    as (item & Hg & Hv & _ & Hempty).
  exists item. split; [exact Hg|]. split; [|exact Hv].
  apply Hempty; intros x H; discriminate H.
Defined.

Example generar_respuestas_str :
  generar_pregunta loads_ejemplos (ApiResponse texto_respuestas_str)
  = Ret (PDict [("pregunta", PStr "Que salida tiene?");
                ("codigo", PStr "Escribir 1+1");
                ("respuestas", PList [PStr "2"; PStr "11"; PStr "3"]);
                ("respuesta_correcta", PStr "2");
                ("explicacion", PStr "")]).
Proof. reflexivity. Qed.

(** * Further properties of the code *)

(** ** The cache in the running system *)

Section MoreInvariants.

Variable json_loads : string -> pyval + string.

Local Abbreviation step := (step json_loads).
Local Abbreviation run := (run json_loads).
Local Abbreviation generar_pregunta := (generar_pregunta json_loads).

Lemma step_bajo_umbral (l : label) (s s' : system) :
  bajo_umbral s -> step l s = Some s' -> bajo_umbral s'.
Proof.
  intros [Hq Hw] H. split; [|apply (step_worker_ok json_loads l s); assumption].
  destruct (step_cache_effect _ _ _ _ H)
    as [E _ _|p _ Hp _ Hput _ _|c x t0 _ _ _ Ht _ _].
  - now rewrite E.
  - unfold worker_ok in Hw. rewrite Hp in Hw. destruct Hw as [Hlt _].
    apply QueueFacts.put_maxsize in Hput as [_ Hi].
    unfold Queue.qsize in *. rewrite Hi, length_app. simpl. lia.
  - apply QueueFacts.take_spec in Ht as [_ Hi].
    unfold Queue.qsize in *. rewrite Hi in Hq. simpl in Hq. lia.
Qed.

Lemma accepted_is_pregunta (r : api_result) (p : pyval) :
  tras_generar (generar_pregunta r) = WPut p -> es_pregunta p.
Proof.
  intros H.
  destruct (tras_generar_cases (generar_pregunta r))
    as [(p' & Hg & Hv & Ht)|[_ Ht]]; rewrite Ht in H; [|discriminate H].
  injection H as <-. destruct r as [e|text]; [discriminate Hg|].
  simpl in Hg. injection Hg as <-.
  destruct (decodificar_cases json_loads text)
    as [(kv & _ & E)|(_ & detalle & E)]; rewrite E in *.
  - now exists kv.
  - rewrite es_valida_error in Hv. discriminate Hv.
Qed.

Lemma step_solo_preguntas (l : label) (s s' : system) :
  solo_preguntas s -> step l s = Some s' -> solo_preguntas s'.
Proof.
  intros (Hq & Hp & He) H.
  assert (Hput : forall p, hilo s' = WPut p -> es_pregunta p).
  { intros p Hs'. destruct (is_worker l) eqn:Hw.
    - destruct l; try discriminate Hw; step_inv H; simpl in Hs';
        try discriminate Hs'.
      now apply accepted_is_pregunta in Hs'.
    - apply Hp. now rewrite <- (step_not_worker_hilo json_loads l s s' H Hw). }
  destruct (step_cache_effect _ _ _ _ H)
    as [E E1 _|p _ Hh _ Hpt E1 _|c x t0 _ _ _ Ht E1 _].
  - unfold solo_preguntas. rewrite E, E1. auto.
  - apply QueueFacts.put_maxsize in Hpt as [_ Hi].
    unfold solo_preguntas. rewrite Hi, E1. split; [|auto].
    apply Forall_app. split; [exact Hq|]. constructor; [|constructor].
    now apply Hp.
  - apply QueueFacts.take_spec in Ht as [_ Hi]. rewrite Hi in Hq.
    inversion Hq as [|? ? Hx Hrest]; subst.
    unfold solo_preguntas. rewrite E1. split; [exact Hrest|].
    split; [exact Hput|]. intros c' x' Hin.
    apply in_app_or in Hin as [Hin|[[= <- <-]|[]]]; [now apply (He c')|].
    exact Hx.
Qed.

Lemma step_sleep_ok (l : label) (s s' : system) :
  sleep_ok s -> step l s = Some s' -> sleep_ok s'.
Proof.
  intros Hs H. unfold sleep_ok in *.
  destruct (is_worker l) eqn:Hw.
  - destruct l; try discriminate Hw; step_inv H; simpl; auto.
    destruct (tras_generar_cases (generar_pregunta r))
      as [(p & _ & _ & ->)|[_ ->]]; exact I.
  - rewrite (step_not_worker_hilo json_loads l s s' H Hw).
    pose proof (step_reloj json_loads l s s' H) as Hmono.
    destruct (hilo s); auto. lia.
Qed.

Lemma iter_tick_hilo (n : nat) (s : system) :
  hilo (Nat.iter n tick s) = hilo s.
Proof. induction n as [|n IH]; simpl; auto. Qed.

(** One turn of the loop with a valid result appends it. *)
Lemma run_ciclo (r : api_result) (p : pyval) (s : system) :
  hilo s = WLoop -> cache_ok s ->
  Queue.qsize (pregunta_cache s) < CACHE_MIN ->
  generar_pregunta r = Ret p -> es_valida p = true ->
  exists s',
    run (ciclo r) s = Some s'
    /\ hilo s' = WLoop /\ cache_ok s' /\ reloj s' = reloj s
    /\ Queue.items (pregunta_cache s') = Queue.items (pregunta_cache s) ++ [p].
Proof.
  intros Hh [Hm Hb] Hlt Hg Hv. unfold ciclo, run, step. rewrite Hh.
  apply Nat.ltb_lt in Hlt as Hlt'. rewrite Hlt'. simpl. rewrite Hg. simpl.
  rewrite Hv.
  destruct (QueueFacts.put_spec (pregunta_cache s) p
              ltac:(rewrite Hm; reflexivity)) as [[_ E]|[Hge _]].
  - rewrite E. eexists. split; [reflexivity|]. simpl.
    repeat split; auto;
      unfold Queue.bounded, Queue.qsize in *; simpl; rewrite ?length_app;
      simpl; rewrite ?Hm in *; unfold CACHE_MIN, CACHE_SIZE in *; lia.
  - rewrite Hm in Hge. unfold CACHE_MIN, CACHE_SIZE in *. lia.
Qed.

End MoreInvariants.

(** X1. The worker alone fills the cache, and only after reading a size
    below [CACHE_MIN]: in every run from a state with the worker at the head
    of its loop and at most 10 items queued, the cache never holds more than
    10 items (the capacity 40 is out of reach). *)
Theorem cache_never_above_watermark (json_loads : string -> pyval + string)
    (ls : list label) (s0 s : system) :
  hilo s0 = WLoop ->
  Queue.qsize (pregunta_cache s0) <= 10 ->
  run json_loads ls s0 = Some s ->
  Queue.qsize (pregunta_cache s) <= 10.
Proof.
  intros Hh Hq Hrun.
  assert (Hinv : bajo_umbral s).
  { apply (run_preserves json_loads bajo_umbral
             (step_bajo_umbral json_loads) ls s0 s); [|exact Hrun].
    split; [exact Hq|]. unfold worker_ok. now rewrite Hh. }
  exact (proj1 Hinv).
Qed.

(** Nine items seeded, one turn of the loop, then a check that sleeps. *)
Lemma cache_never_above_watermark_witness :
  exists s,
    run loads_ejemplos
        (ciclo (ApiResponse texto_completo) ++ [WCheck])
        (sembrado (repeat PNone 9)) = Some s
    /\ Queue.qsize (pregunta_cache s) <= 10.
Proof.
  eexists. split; [reflexivity|].
  apply (cache_never_above_watermark loads_ejemplos
           (ciclo (ApiResponse texto_completo) ++ [WCheck])
           (sembrado (repeat PNone 9))).
  - reflexivity.
  - unfold Queue.qsize. simpl. lia.
  - reflexivity.
Defined.

(** X2. The cache only ever holds question dictionaries: in every run from
    a state whose queue holds question dictionaries, every queued item and
    every item handed to a call was built by line 115, passes the validity
    test and holds a list under [respuestas]; the error dictionary of
    line 125 is never cached. *)
Theorem cache_holds_only_preguntas (json_loads : string -> pyval + string)
    (ls : list label) (s0 s : system) :
  hilo s0 = WLoop ->
  entregas s0 = [] ->
  Forall es_pregunta (Queue.items (pregunta_cache s0)) ->
  run json_loads ls s0 = Some s ->
  forall x,
    In x (Queue.items (pregunta_cache s)) \/ In x (map snd (entregas s)) ->
    es_valida x = true
    /\ (forall detalle text, x <> error_dict detalle text)
    /\ exists kv l,
         x = PDict kv
         /\ dict_lookup kv "respuestas" = Some (PList l)
         /\ dict_has kv "respuesta_correcta" = true
         /\ dict_has kv "explicacion" = true.
Proof.
  intros Hh He Hq Hrun x Hx.
  assert (Hinv : solo_preguntas s).
  { apply (run_preserves json_loads solo_preguntas
             (step_solo_preguntas json_loads) ls s0 s); [|exact Hrun].
    split; [exact Hq|]. split.
    - intros p Hp. rewrite Hh in Hp. discriminate Hp.
    - intros c y Hin. rewrite He in Hin. destruct Hin. }
  destruct Hinv as (Hitems & _ & Hent).
  assert (Hp : es_pregunta x).
  { destruct Hx as [Hx|Hx].
    - rewrite Forall_forall in Hitems. now apply Hitems.
    - apply in_map_iff in Hx as ([c y] & Hy & Hin). simpl in Hy. subst y.
      now apply (Hent c). }
  destruct Hp as [kv0 ->]. split; [reflexivity|]. split.
  - intros detalle text H. discriminate H.
  - unfold armar_pregunta.
    assert (Hl : exists l,
               normalizar_respuestas (dict_get kv0 "Respuestas") = PList l).
    { destruct (dict_get kv0 "Respuestas"); simpl; eexists; reflexivity. }
    destruct Hl as [l Hl]. rewrite Hl.
    eexists. exists l. split; [reflexivity|]. repeat split.
Qed.

(** From start-up: a fenced response decoded, cached and handed out. *)
Lemma cache_holds_only_preguntas_witness :
  exists s x,
    run loads_ejemplos (ciclo (ApiResponse texto_completo) ++ [CCall 0])
        arranque = Some s
    /\ entregas s = [(0, x)]
    /\ es_valida x = true.
Proof.
  eexists. eexists. split; [reflexivity|]. split; [reflexivity|].
  apply (cache_holds_only_preguntas loads_ejemplos
           (ciclo (ApiResponse texto_completo) ++ [CCall 0]) arranque _
           eq_refl eq_refl (Forall_nil _) eq_refl).
  right. left. reflexivity.
Defined.

(** X3. Replenishing.  With the worker at the head of its loop, [n] items
    queued and [n + k = 10], [k] turns of the loop with a valid result [p]
    append [k] copies of [p] with no time passing, and the check that follows
    sends the worker to sleep. *)
Theorem worker_refills_to_watermark (json_loads : string -> pyval + string)
    (r : api_result) (p : pyval) (k : nat) (s : system) :
  hilo s = WLoop ->
  cache_ok s ->
  generar_pregunta json_loads r = Ret p ->
  es_valida p = true ->
  Queue.qsize (pregunta_cache s) + k = 10 ->
  exists s',
    run json_loads (List.concat (repeat (ciclo r) k)) s = Some s'
    /\ Queue.items (pregunta_cache s')
       = Queue.items (pregunta_cache s) ++ repeat p k
    /\ reloj s' = reloj s
    /\ exists s'',
         step json_loads WCheck s' = Some s''
         /\ hilo s'' = WSleep (reloj s + 2).
Proof.
  intros Hh Hc Hg Hv. revert s Hh Hc.
  induction k as [|k IH]; intros s Hh Hc Hk.
  - exists s. simpl. rewrite app_nil_r. repeat split.
    unfold step. rewrite Hh.
    replace (Queue.qsize (pregunta_cache s) <? CACHE_MIN)%nat with false
      by (symmetry; apply Nat.ltb_ge; unfold CACHE_MIN; lia).
    eexists. split; reflexivity.
  - destruct (run_ciclo json_loads r p s Hh Hc ltac:(unfold CACHE_MIN; lia)
                Hg Hv) as (s1 & Hrun1 & Hh1 & Hc1 & Hr1 & Hi1).
    destruct (IH s1 Hh1 Hc1) as (s' & Hrun & Hi & Hr & s'' & Hs & Hsl).
    { unfold Queue.qsize in *. rewrite Hi1, length_app. simpl. lia. }
    exists s'.
    change (List.concat (repeat (ciclo r) (S k)))
      with (ciclo r ++ List.concat (repeat (ciclo r) k)).
    rewrite run_app, Hrun1.
    split; [exact Hrun|]. split.
    + rewrite Hi, Hi1, <- app_assoc. reflexivity.
    + split; [congruence|]. exists s''. split; [exact Hs|]. now rewrite <- Hr1.
Qed.

(** From start-up the worker caches ten questions and goes to sleep. *)
Lemma worker_refills_to_watermark_witness :
  exists s',
    run loads_ejemplos
        (List.concat (repeat (ciclo (ApiResponse texto_completo)) 10)) arranque
      = Some s'
    /\ Queue.qsize (pregunta_cache s') = 10.
Proof.
  destruct (worker_refills_to_watermark loads_ejemplos
              (ApiResponse texto_completo) _ 10 arranque
              eq_refl cache_ok_arranque eq_refl eq_refl eq_refl)
    as (s' & Hrun & Hi & _).
  exists s'. split; [exact Hrun|].
  unfold Queue.qsize. rewrite Hi. reflexivity.
Defined.

(** ** More on the calls of [obtener_pregunta_cache] *)

(** X4. Whatever the interleaving, a call of [obtener_pregunta_cache] calls
    [generar_pregunta] at most once; when it does, it has waited the full
    ten seconds first, that call of the generator is its last step and the
    generator's outcome is its result.  A call that left without generating
    returned an item taken from the cache. *)
Theorem call_generates_at_most_once (json_loads : string -> pyval + string)
    (c : nat) (ls : list label) (s0 s' : system) :
  llamadas s0 c = CIdle ->
  run json_loads ls s0 = Some s' ->
  List.length (filter is_fallback (call_trace c ls)) <= 1
  /\ (forall o, In (CFallback c o) ls ->
        call_trace c ls = [CCall c; CTimeout c; CFallback c o]
        /\ exists t0 t1,
             llamadas s' c = CDone t0 t1 (generar_pregunta json_loads o)
             /\ reloj s0 <= t0 /\ t0 + 10 <= t1)
  /\ (forall t0 t1 r,
        llamadas s' c = CDone t0 t1 r ->
        (forall o, ~ In (CFallback c o) ls) ->
        exists x, r = Ret x /\ In (c, x) (entregas s')).
Proof.
  intros Hidle Hrun.
  pose proof (run_call_ok json_loads c ls s0 s' Hidle Hrun) as Hok.
  assert (Hin : forall o, In (CFallback c o) ls ->
                          In (CFallback c o) (call_trace c ls)).
  { intros o H. apply filter_In. split; [exact H|]. simpl.
    apply Nat.eqb_refl. }
  unfold call_ok in Hok.
  destruct (llamadas s' c) as [|t0|t0|t0 t1 r] eqn:Hpc.
  - rewrite Hok in *. split; [simpl; lia|]. split.
    + intros o H. apply Hin in H. destruct H.
    + intros ? ? ? H. discriminate H.
  - destruct Hok as [Htr _]. rewrite Htr in *. split; [simpl; lia|]. split.
    + intros o H. apply Hin in H. simpl in H.
      destruct H as [H|[]]. discriminate H.
    + intros ? ? ? H. discriminate H.
  - destruct Hok as (Htr & _). rewrite Htr in *. split; [simpl; lia|]. split.
    + intros o H. apply Hin in H. simpl in H.
      destruct H as [H|[H|[]]]; discriminate H.
    + intros ? ? ? H. discriminate H.
  - destruct Hok as (Hd & H1 & [(x & Hr & Hx & Htr)|(o' & Hr & Htr & Ht)]).
    + assert (Hnone : forall o, ~ In (CFallback c o) (call_trace c ls)).
      { intros o H. destruct Htr as [[Htr _]|Htr]; rewrite Htr in H;
          simpl in H; intuition discriminate. }
      split; [destruct Htr as [[-> _]| ->]; simpl; lia|]. split.
      * intros o H. apply Hin in H. now apply Hnone in H.
      * intros a b r' [= _ _ <-] _. now exists x.
    + rewrite Htr in *. split; [simpl; lia|]. split.
      * intros o H. apply Hin in H. simpl in H.
        destruct H as [H|[H|[H|[]]]]; try discriminate H.
        injection H as <-. split; [reflexivity|].
        exists t0, t1. unfold GET_TIMEOUT in Ht. rewrite Hr. auto.
      * intros a b r' _ Hno. exfalso. apply (Hno o').
        assert (H : In (CFallback c o') (call_trace c ls)).
        { rewrite Htr. simpl. auto. }
        apply filter_In in H. exact (proj1 H).
Qed.

(** At start-up, a call timing out and the remote API failing. *)
Lemma call_generates_at_most_once_witness :
  exists s',
    run (loads_tabla []) (espera_y_fallback 0 (ApiRaise "503")) arranque
      = Some s'
    /\ List.length
         (filter is_fallback
            (call_trace 0 (espera_y_fallback 0 (ApiRaise "503")))) <= 1.
Proof.
  destruct (run_espera_y_fallback (loads_tabla []) 0 (ApiRaise "503")
              arranque eq_refl eq_refl) as (s' & Hrun & _).
  exists s'. split; [exact Hrun|].
  apply (call_generates_at_most_once (loads_tabla []) 0
           (espera_y_fallback 0 (ApiRaise "503")) arranque s'
           eq_refl Hrun).
Defined.

Section HandOver.

Variable json_loads : string -> pyval + string.

Local Abbreviation step := (step json_loads).
Local Abbreviation run := (run json_loads).



End HandOver.



(** X6. The worker is never stuck: in every run from a state with the
    worker at the head of its loop and the cache within its bound, the
    worker has a step to take at once or, when it sleeps, after at most two
    seconds; in particular its [put] never waits. *)
Theorem worker_never_stuck (json_loads : string -> pyval + string)
    (ls : list label) (s0 s : system) :
  hilo s0 = WLoop ->
  cache_ok s0 ->
  run json_loads ls s0 = Some s ->
  exists n l s',
    n <= 2 /\ is_worker l = true
    /\ run json_loads (repeat Tick n ++ [l]) s = Some s'.
Proof.
  intros Hh Hc Hrun.
  assert (Hw : worker_ok s).
  { apply (run_worker_ok json_loads ls s0 s); [|exact Hrun].
    unfold worker_ok. now rewrite Hh. }
  assert (Hc' : cache_ok s) by apply (run_cache_ok json_loads ls s0 s Hc Hrun).
  assert (Hs : sleep_ok s).
  { apply (run_preserves json_loads sleep_ok (step_sleep_ok json_loads)
             ls s0 s); [|exact Hrun].
    unfold sleep_ok. now rewrite Hh. }
  unfold worker_ok in Hw. unfold sleep_ok in Hs.
  destruct (hilo s) as [|visto|p|hasta] eqn:Hpc.
  - exists 0, WCheck. simpl. unfold step. rewrite Hpc.
    destruct (Queue.qsize (pregunta_cache s) <? CACHE_MIN)%nat;
      eexists; repeat split; lia.
  - exists 0, (WGenerate (ApiRaise "")). simpl. unfold step. rewrite Hpc.
    eexists. repeat split; lia.
  - exists 0, WEnqueue. simpl. unfold step. rewrite Hpc.
    destruct Hc' as [Hm _]. destruct Hw as [Hlt _].
    destruct (QueueFacts.put_spec (pregunta_cache s) p
                ltac:(rewrite Hm; reflexivity)) as [[_ E]|[Hge _]].
    + rewrite E. eexists. repeat split; lia.
    + rewrite Hm in Hge. unfold CACHE_MIN, CACHE_SIZE in *. lia.
  - exists 2, WWake. rewrite run_ticks.
    pose proof (iter_tick_hilo 2 s) as E0.
    destruct (iter_tick 2 s) as (E1 & _).
    remember (Nat.iter 2 tick s) as s2 eqn:Hs2.
    simpl. unfold step. rewrite E0, Hpc, E1.
    replace (hasta <=? 2 + reloj s)%nat with true
      by (symmetry; apply Nat.leb_le; unfold SLEEP_SECS in Hs; lia).
    eexists. repeat split; lia.
Qed.

(** The worker asleep on ten seeded items. *)
Lemma worker_never_stuck_witness :
  exists n l s',
    n <= 2 /\ is_worker l = true
    /\ run (loads_tabla []) (repeat Tick n ++ [l])
           (set_hilo (WSleep 2) (sembrado (repeat PNone 10))) = Some s'.
Proof.
  assert (Hc : cache_ok (sembrado (repeat PNone 10))).
  { split; [reflexivity|]. vm_compute. split; discriminate. }
  exact (worker_never_stuck (loads_tabla []) [WCheck]
           (sembrado (repeat PNone 10))
           (set_hilo (WSleep 2) (sembrado (repeat PNone 10)))
           eq_refl Hc eq_refl).
Defined.

(** ** Cleaning the response text *)

Module LimpiarFacts.
Import PyStr.

Lemma length_append (a b : string) :
  String.length (a ++ b)%string = String.length a + String.length b.
Proof. induction a as [|c a IH]; simpl; [reflexivity|now rewrite IH]. Qed.

Lemma prefix_append (a b : string) : String.prefix a (a ++ b)%string = true.
Proof.
  induction a as [|c a IH]; simpl; [destruct b; reflexivity|].
  destruct (ascii_dec c c) as [_|Hne]; [exact IH|now destruct Hne].
Qed.

Lemma prefix_shorter (a b t : string) :
  String.prefix (a ++ b)%string t = true -> String.prefix a t = true.
Proof.
  revert t. induction a as [|c a IH]; intros t H;
    [destruct t; reflexivity|].
  destruct t as [|d t]; simpl in *; [discriminate H|].
  destruct (ascii_dec c d); [now apply IH|discriminate H].
Qed.

Lemma substring_whole (s : string) :
  String.substring 0 (String.length s) s = s.
Proof. induction s as [|c s IH]; simpl; [reflexivity|now rewrite IH]. Qed.

Lemma substring_head (a b : string) :
  String.substring 0 (String.length a) (a ++ b)%string = a.
Proof.
  induction a as [|c a IH]; simpl.
  - destruct b; reflexivity.
  - now rewrite IH.
Qed.

Lemma substring_skip (a b : string) (m : nat) :
  String.substring (String.length a) m (a ++ b)%string
  = String.substring 0 m b.
Proof. induction a as [|c a IH]; simpl; [reflexivity|exact IH]. Qed.

Lemma drop_append (a b : string) : drop (String.length a) (a ++ b)%string = b.
Proof.
  unfold drop. rewrite length_append, substring_skip.
  replace (String.length a + String.length b - String.length a)
    with (String.length b) by lia.
  apply substring_whole.
Qed.

Lemma drop_end_append (a b : string) :
  drop_end (String.length b) (a ++ b)%string = a.
Proof.
  unfold drop_end. rewrite length_append.
  replace (String.length a + String.length b - String.length b)
    with (String.length a) by lia.
  apply substring_head.
Qed.

Lemma endswith_append (a b : string) : endswith (a ++ b)%string b = true.
Proof.
  unfold endswith. rewrite length_append.
  replace (String.length a + String.length b - String.length b)
    with (String.length a) by lia.
  rewrite drop_append, String.eqb_refl, andb_true_r.
  apply Nat.leb_le. lia.
Qed.

Lemma all_space_append (a b : string) :
  all_space (a ++ b)%string = all_space a && all_space b.
Proof.
  induction a as [|c a IH]; simpl; [reflexivity|].
  now rewrite IH, andb_assoc.
Qed.

Lemma lstrip_padding (pre x : string) :
  all_space pre = true -> lstrip (pre ++ x)%string = lstrip x.
Proof.
  induction pre as [|c pre IH]; simpl; [reflexivity|].
  intros H. apply andb_true_iff in H as [Hc Hp]. rewrite Hc. now apply IH.
Qed.

Lemma lstrip_id (x : string) (c : ascii) :
  first_char x = Some c -> isspace c = false -> lstrip x = x.
Proof.
  destruct x as [|d x]; simpl; [discriminate|].
  intros [= ->] ->. reflexivity.
Qed.

Lemma rstrip_all_space (s : string) :
  all_space s = true -> rstrip s = EmptyString.
Proof.
  destruct s as [|c s]; [reflexivity|]. intros H. cbn [rstrip]. now rewrite H.
Qed.

Lemma last_char_not_space (m : string) (c : ascii) :
  last_char m = Some c -> isspace c = false -> all_space m = false.
Proof.
  induction m as [|d m IH]; [discriminate|].
  intros Hl Hc. cbn [all_space]. destruct m as [|e m].
  - simpl in Hl. injection Hl as ->. now rewrite Hc.
  - rewrite (IH Hl Hc). apply andb_false_r.
Qed.

Lemma rstrip_padding (m post : string) (c : ascii) :
  last_char m = Some c -> isspace c = false -> all_space post = true ->
  rstrip (m ++ post)%string = m.
Proof.
  intros Hl Hc Hp. induction m as [|d m IH]; [discriminate Hl|].
  change (String d m ++ post)%string with (String d (m ++ post)%string).
  cbn [rstrip].
  assert (Hns : all_space (String d (m ++ post)%string) = false).
  { change (String d (m ++ post)%string) with (String d m ++ post)%string.
    rewrite all_space_append, (last_char_not_space _ c Hl Hc). reflexivity. }
  rewrite Hns. f_equal. destruct m as [|e m].
  - simpl. now apply rstrip_all_space.
  - apply IH. exact Hl.
Qed.

(** [strip] gives back a text that neither starts nor ends with
    whitespace from any whitespace padding of it. *)
Lemma strip_padded (pre m post : string) (c1 c2 : ascii) :
  all_space pre = true -> all_space post = true ->
  first_char m = Some c1 -> isspace c1 = false ->
  last_char m = Some c2 -> isspace c2 = false ->
  strip (pre ++ m ++ post)%string = m.
Proof.
  intros Hpre Hpost Hf Hc1 Hl Hc2. unfold strip.
  rewrite (lstrip_padding pre _ Hpre).
  rewrite (lstrip_id (m ++ post)%string c1).
  - now apply (rstrip_padding m post c2).
  - destruct m; [discriminate Hf|exact Hf].
  - exact Hc1.
Qed.

Lemma last_char_append (a b : string) :
  b <> EmptyString -> last_char (a ++ b)%string = last_char b.
Proof.
  intros Hb. induction a as [|c a IH]; [reflexivity|].
  change (String c a ++ b)%string with (String c (a ++ b)%string).
  cbn [last_char]. rewrite IH.
  destruct (a ++ b)%string eqn:E; [|reflexivity].
  destruct a; simpl in E; [now destruct Hb|discriminate E].
Qed.

Lemma prefix_cons_ne (c d : ascii) (a b : string) :
  c <> d -> String.prefix (String c a) (String d b) = false.
Proof.
  intros H. cbn [String.prefix].
  destruct (ascii_dec c d) as [E|_]; [now destruct H|reflexivity].
Qed.

Lemma prefix_cons_eq (c : ascii) (a b : string) :
  String.prefix (String c a) (String c b) = String.prefix a b.
Proof.
  cbn [String.prefix].
  destruct (ascii_dec c c) as [_|H]; [reflexivity|now destruct H].
Qed.

End LimpiarFacts.

(** X7. Cleaning a response without fences: for a body that neither starts
    nor ends with whitespace or with a Markdown fence, whatever whitespace
    surrounds it, [limpiar] hands exactly the body to [json.loads]. *)
Theorem limpiar_unfenced (pre body post : string) (c1 c2 : ascii) :
  PyStr.all_space pre = true ->
  PyStr.all_space post = true ->
  PyStr.first_char body = Some c1 -> PyStr.isspace c1 = false ->
  PyStr.last_char body = Some c2 -> PyStr.isspace c2 = false ->
  PyStr.startswith body "```" = false ->
  PyStr.endswith body "```" = false ->
  limpiar (pre ++ body ++ post)%string = body.
Proof.
  intros Hpre Hpost Hf Hc1 Hl Hc2 Hs He. unfold limpiar.
  rewrite (LimpiarFacts.strip_padded pre body post c1 c2) by assumption.
  assert (Hj : PyStr.startswith body "```json" = false).
  { destruct (PyStr.startswith body "```json") eqn:E; [|reflexivity].
    unfold PyStr.startswith in *.
    change "```json" with ("```" ++ "json")%string in E.
    apply LimpiarFacts.prefix_shorter in E. congruence. }
  cbv zeta. rewrite Hj, Hs, He. reflexivity.
Qed.

Lemma limpiar_unfenced_witness :
  limpiar ("  " ++ "[1]" ++ " ")%string = "[1]".
Proof.
  apply (limpiar_unfenced "  " "[1]" " " "["%char "]"%char); reflexivity.
Defined.

(** X8. Cleaning a fenced response: for a body whose first character is not
    a backquote, wrapped in an opening json fence and a closing fence and
    surrounded by any whitespace, [limpiar] gives back exactly the body
    (whitespace next to the fences is kept); the same holds with the plain
    opening fence when the body does not start with the letter j. *)
Theorem limpiar_fenced (pre body post : string) (c : ascii) :
  PyStr.all_space pre = true ->
  PyStr.all_space post = true ->
  PyStr.first_char body = Some c ->
  c <> "`"%char ->
  limpiar (pre ++ ("```json" ++ body ++ "```") ++ post)%string = body
  /\ (c <> "j"%char ->
      limpiar (pre ++ ("```" ++ body ++ "```") ++ post)%string = body).
Proof.
  intros Hpre Hpost Hf Hc.
  assert (Hlast : forall a,
            PyStr.last_char (a ++ body ++ "```")%string = Some "`"%char).
  { intros a. rewrite LimpiarFacts.last_char_append.
    - now rewrite LimpiarFacts.last_char_append.
    - destruct body; discriminate. }
  assert (Hnofence : PyStr.startswith (body ++ "```")%string "```" = false).
  { destruct body as [|d body]; [discriminate Hf|].
    simpl in Hf. injection Hf as ->. unfold PyStr.startswith.
    apply LimpiarFacts.prefix_cons_ne. congruence. }
  split.
  - unfold limpiar.
    rewrite (LimpiarFacts.strip_padded pre _ post "`"%char "`"%char);
      try assumption; try reflexivity; [|apply Hlast].
    assert (E1 : PyStr.startswith ("```json" ++ body ++ "```")%string
                   "```json" = true)
      by apply LimpiarFacts.prefix_append.
    assert (E2 : PyStr.drop 7 ("```json" ++ body ++ "```")%string
                 = (body ++ "```")%string)
      by apply (LimpiarFacts.drop_append "```json").
    cbv zeta. rewrite E1, E2, Hnofence, LimpiarFacts.endswith_append.
    apply (LimpiarFacts.drop_end_append body "```").
  - intros Hj. unfold limpiar.
    rewrite (LimpiarFacts.strip_padded pre _ post "`"%char "`"%char);
      try assumption; try reflexivity; [|apply Hlast].
    assert (Hnojson :
              PyStr.startswith ("```" ++ body ++ "```")%string "```json"
              = false).
    { destruct body as [|d body]; [discriminate Hf|].
      simpl in Hf. injection Hf as ->. unfold PyStr.startswith.
      change ("```" ++ String c body ++ "```")%string
        with (String "`" (String "`" (String "`"
                (String c (body ++ "```")%string)))).
      rewrite !LimpiarFacts.prefix_cons_eq.
      apply LimpiarFacts.prefix_cons_ne. congruence. }
    assert (E1 : PyStr.startswith ("```" ++ body ++ "```")%string "```"
                 = true)
      by apply LimpiarFacts.prefix_append.
    assert (E2 : PyStr.drop 3 ("```" ++ body ++ "```")%string
                 = (body ++ "```")%string)
      by apply (LimpiarFacts.drop_append "```").
    cbv zeta. rewrite Hnojson, E1, E2, LimpiarFacts.endswith_append.
    apply (LimpiarFacts.drop_end_append body "```").
Qed.

Lemma limpiar_fenced_witness :
  limpiar (" " ++ ("```json" ++ " [1] " ++ "```") ++ "  ")%string = " [1] ".
Proof.
  assert (Hc : " "%char <> "`"%char) by discriminate.
  exact (proj1 (limpiar_fenced " " " [1] " "  " " "%char
                  eq_refl eq_refl eq_refl Hc)).
Defined.

(** ** The route [/quiz] *)

Module QuizFacts.
Import Quiz.

Ltac quiz_unfold :=
  unfold quiz, responder, iniciar, acierta, anotar_error, bind, ret, lift,
    leer, leer_o, tiene, set_puntaje, set_total, set_inicio,
    set_pregunta_actual, set_errores, clear in *;
  cbn [puntaje total inicio pregunta_actual errores vacia] in *.

Ltac quiz_cases H :=
  repeat (cbn [puntaje total inicio pregunta_actual errores] in H;
          match type of H with
          | context [match ?x with _ => _ end] =>
              lazymatch x with
              | context [match _ with _ => _ end] => fail
              | _ => destruct x eqn:?; try discriminate H
              end
          end).

Ltac quiz_done :=
  repeat match goal with
    | Hb : (_ <=? _)%Z = true |- _ => apply Z.leb_le in Hb
    | Hb : (_ <=? _)%Z = false |- _ => apply Z.leb_gt in Hb
    end;
  cbn [puntaje total inicio pregunta_actual errores];
  unfold Quiz.en_juego;
  repeat match goal with
    | |- _ /\ _ => split
    | |- exists _, _ => eexists
    end;
  try reflexivity; rewrite ?length_app; cbn [List.length];
  try (f_equal; lia); try lia.

Section Handler.

Variable T : Type.
Variable segundos : T -> T -> Z.

Local Abbreviation quiz := (quiz T segundos).
Local Abbreviation en_juego := (en_juego T).
Local Abbreviation vacia := (vacia T).

(** X9. The score of a game.  From an empty session or a game in progress,
    a request that is answered (no exception) leaves an empty session or a
    game in progress.  The quiz page shows the question stored in the
    session and its number, between 1 and 5, one more than the answers
    given.  The result page is rendered by a POST only, with the session
    cleared, and its count of correct answers and its list of errors add up
    to 5. *)
Theorem quiz_keeps_score (post : bool) (seleccion : option string) (ahora : T)
    (primera siguiente : outcome pyval) (ses ses' : sesion T) (pag : pagina) :
  ses = vacia \/ en_juego ses ->
  quiz post seleccion ahora primera siguiente ses = (Ret pag, ses') ->
  match pag with
  | QuizHtml q n =>
      en_juego ses' /\ pregunta_actual T ses' = Some q
      /\ total T ses' = Some (n - 1)%Z /\ (1 <= n <= 5)%Z
  | ResultadoHtml c tiempo errs =>
      ses' = vacia /\ post = true
      /\ (0 <= c)%Z /\ (c + Z.of_nat (List.length errs) = 5)%Z
  end.
Proof.
  intros [->|(p & t & ini & q & errs & -> & Hp & Hsum & Ht)] H.
  - destruct post; quiz_unfold; quiz_cases H;
      cbn [puntaje total inicio pregunta_actual errores] in H;
      injection H as <- <-; quiz_done.
  - destruct post; quiz_unfold; quiz_cases H;
      cbn [puntaje total inicio pregunta_actual errores] in H;
      injection H as <- <-; quiz_done.
Qed.



(** X12. A current question without the key [respuesta_correcta], such as
    the error dictionary that the fallback returns when the response does
    not decode: a GET renders it as the question, and every POST raises
    [KeyError] with the session exactly as it was. *)
Theorem quiz_on_missing_key (seleccion : option string) (ahora ini : T)
    (primera siguiente : outcome pyval) (p t : Z)
    (kv : list (string * pyval)) (errs : list pyval) :
  dict_has kv "respuesta_correcta" = false ->
  quiz true seleccion ahora primera siguiente
    {| puntaje := Some p; total := Some t; inicio := Some ini;
       pregunta_actual := Some (PDict kv); errores := Some errs |}
  = (Raise "KeyError: 'respuesta_correcta'",
     {| puntaje := Some p; total := Some t; inicio := Some ini;
        pregunta_actual := Some (PDict kv); errores := Some errs |})
  /\ quiz false seleccion ahora primera siguiente
       {| puntaje := Some p; total := Some t; inicio := Some ini;
          pregunta_actual := Some (PDict kv); errores := Some errs |}
     = (Ret (QuizHtml (PDict kv) (t + 1)),
        {| puntaje := Some p; total := Some t; inicio := Some ini;
           pregunta_actual := Some (PDict kv); errores := Some errs |}).
Proof.
  intros Hc. unfold dict_has in Hc.
  destruct (dict_lookup kv "respuesta_correcta") eqn:E; [discriminate Hc|].
  split; quiz_unfold; [|reflexivity].
  unfold subscript. rewrite E. reflexivity.
Qed.

(** X13. Starting and refreshing.  The first GET stores score 0, count 0,
    the clock and the fetched question, and shows it as question 1; when the
    fetch raises, the exception leaves the route with [puntaje], [total] and
    [inicio] stored and no question.  On a session holding [puntaje] but no
    question every request raises [KeyError].  A GET during a game fetches
    nothing and changes nothing. *)
Theorem quiz_start_and_refresh (seleccion : option string) (ahora : T)
    (primera siguiente : outcome pyval) :
  (forall q, primera = Ret q ->
      quiz false seleccion ahora primera siguiente vacia
      = (Ret (QuizHtml q 1),
         {| puntaje := Some 0%Z; total := Some 0%Z; inicio := Some ahora;
            pregunta_actual := Some q; errores := Some [] |}))
  /\ (forall e post, primera = Raise e ->
        quiz post seleccion ahora primera siguiente vacia
        = (Raise e,
           {| puntaje := Some 0%Z; total := Some 0%Z; inicio := Some ahora;
              pregunta_actual := None; errores := None |}))
  /\ (forall post p t ini errs,
        quiz post seleccion ahora primera siguiente
          {| puntaje := Some p; total := t; inicio := ini;
             pregunta_actual := None; errores := errs |}
        = (Raise "KeyError: 'pregunta_actual'",
           {| puntaje := Some p; total := t; inicio := ini;
              pregunta_actual := None; errores := errs |}))
  /\ (forall ses p t ini q errs,
        ses = {| puntaje := Some p; total := Some t; inicio := Some ini;
                 pregunta_actual := Some q; errores := Some errs |} ->
        quiz false seleccion ahora primera siguiente ses
        = (Ret (QuizHtml q (t + 1)), ses)).
Proof.
  split; [|split; [|split]].
  - intros q ->. reflexivity.
  - intros e post ->. destruct post; reflexivity.
  - intros post p t ini errs. destruct post; reflexivity.
  - intros ses p t ini q errs ->. reflexivity.
Qed.

(** X14. A POST on an empty session starts the game and answers at once:
    the answer is scored against the question just fetched, which the user
    was never shown, a second question is fetched and shown as question 2. *)
Theorem quiz_post_on_empty_session (seleccion : option string) (ahora : T)
    (q2 : pyval) (kv : list (string * pyval)) (correcta : string) :
  dict_lookup kv "respuesta_correcta" = Some (PStr correcta) ->
  dict_has kv "pregunta" = true ->
  dict_has kv "codigo" = true ->
  dict_has kv "respuestas" = true ->
  exists errs,
    quiz true seleccion ahora (Ret (PDict kv)) (Ret q2) vacia
    = (Ret (QuizHtml q2 2),
       {| puntaje := Some (if coincide seleccion correcta then 1 else 0)%Z;
          total := Some 1%Z; inicio := Some ahora;
          pregunta_actual := Some q2; errores := Some errs |})
    /\ List.length errs = if coincide seleccion correcta then 0 else 1.
Proof.
  intros Hc Hp Hcod Hr. unfold dict_has in Hp, Hcod, Hr.
  destruct (dict_lookup kv "pregunta") as [vp|] eqn:Ep; [|discriminate Hp].
  destruct (dict_lookup kv "codigo") as [vc|] eqn:Ec; [|discriminate Hcod].
  destruct (dict_lookup kv "respuestas") as [vr|] eqn:Er; [|discriminate Hr].
  quiz_unfold. unfold subscript, metodo_get, metodo_strip.
  rewrite Hc, Ep, Ec, Er.
  destruct seleccion as [[|ch sel]|]; cbn [coincide];
    try (eexists; split; reflexivity).
  destruct (PyStr.strip (String ch sel) =? PyStr.strip correcta)%string;
    eexists; split; reflexivity.
Qed.

End Handler.

Lemma en_juego_sesion_cuarta (q : pyval) : en_juego Z (sesion_cuarta q).
Proof.
  exists 3%Z, 4%Z, 100%Z, q, [PNone]. split; [reflexivity|]. simpl. lia.
Defined.

(** The fifth answer, right up to whitespace, thirty seconds in. *)
Lemma quiz_keeps_score_witness :
  quiz Z resta_segundos true (Some " 2 ") 130%Z (Raise "")
       (Ret item_completo) (sesion_cuarta item_completo)
  = (Ret (ResultadoHtml 4 30 [PNone]), vacia Z)
  /\ (4 + Z.of_nat (List.length [PNone]) = 5)%Z.
Proof.
  split; [reflexivity|].
  exact (proj2 (proj2 (proj2
           (quiz_keeps_score Z resta_segundos true (Some " 2 ") 130%Z
              (Raise "") (Ret item_completo) (sesion_cuarta item_completo)
              (vacia Z) (ResultadoHtml 4 30 [PNone])
              (or_intror (en_juego_sesion_cuarta item_completo))
              eq_refl)))).
Defined.



(** The error dictionary of the fallback as the current question. *)
Lemma quiz_on_missing_key_witness :
  quiz Z resta_segundos true (Some "2") 130%Z (Raise "")
       (Ret item_completo)
       (sesion_cuarta (error_dict "Expecting value" "Lo siento"))
  = (Raise "KeyError: 'respuesta_correcta'",
     sesion_cuarta (error_dict "Expecting value" "Lo siento")).
Proof.
  exact (proj1 (quiz_on_missing_key Z resta_segundos (Some "2") 130%Z 100%Z
                  (Raise "") (Ret item_completo) 3%Z 4%Z
                  [("error", PStr "No se pudo extraer el JSON");
                   ("detalle", PStr "Expecting value");
                   ("texto", PStr "Lo siento")]
                  [PNone] eq_refl)).
Defined.

(** A POST with the right answer and no session. *)
Lemma quiz_post_on_empty_session_witness :
  exists errs,
    quiz Z resta_segundos true (Some "2") 100%Z (Ret item_completo)
         (Ret item_sin_correcta) (vacia Z)
    = (Ret (QuizHtml item_sin_correcta 2),
       {| puntaje := Some 1%Z; total := Some 1%Z; inicio := Some 100%Z;
          pregunta_actual := Some item_sin_correcta;
          errores := Some errs |}).
Proof.
  destruct (quiz_post_on_empty_session Z resta_segundos (Some "2") 100%Z
              item_sin_correcta
              [("pregunta", PStr "Que salida tiene?");
               ("codigo", PStr "Escribir 1+1");
               ("respuestas", PList [PStr "2"; PStr "11"]);
               ("respuesta_correcta", PStr "2");
               ("explicacion", PStr "Suma")]
              "2" eq_refl eq_refl eq_refl eq_refl) as (errs & Hq & _).
  exists errs. exact Hq.
Defined.

End QuizFacts.
